(** * Birthday arithmetic and list actions of the CRM component

    The component [src/project/src/components/CRM.jsx] computes ages,
    day counts and the list of upcoming birthdays with the [dayjs]
    library, which itself sits on the ECMAScript [Date] object.  The
    development has three layers:

    - [ES]: the ECMAScript time-value algorithms ([Day], [DayFromYear],
      [YearFromTime], [MonthFromTime], [DateFromTime], [MakeDay],
      [MakeDate]) and the [Date] methods the library calls;
    - [Dayjs]: the library operations the component uses ([year],
      [add], [isAfter], [isBefore], [diff]);
    - [CRM]: the functions of the component.

    Time values are local wall-clock milliseconds since 1970-01-01T00:00
    in a zone whose UTC offset is constant, so that the zone correction
    of [diff] vanishes and comparing two instants is comparing their
    local time values.  Numbers are exact (integers and rationals); the
    quantities involved are far from the range where IEEE doubles round. *)

From Stdlib Require Import ZArith QArith Qround Lqa Bool List Lia String.
Import ListNotations.
Local Open Scope Z_scope.

(** ** ECMAScript time values *)

Module ES.

Definition msPerDay : Z := 86400000.

Definition Day (t : Z) : Z := t / msPerDay.
Definition TimeWithinDay (t : Z) : Z := t mod msPerDay.

Definition DaysInYear (y : Z) : Z :=
  if negb (y mod 4 =? 0) then 365
  else if negb (y mod 100 =? 0) then 366
  else if negb (y mod 400 =? 0) then 365
  else 366.

Definition DayFromYear (y : Z) : Z :=
  365 * (y - 1970) + (y - 1969) / 4 - (y - 1901) / 100 + (y - 1601) / 400.

Definition TimeFromYear (y : Z) : Z := msPerDay * DayFromYear y.

(** [YearFromTime t] is the largest [y] with [TimeFromYear y <= t].  It is
    computed from the mean year length and corrected by at most one year
    (lemma [YearFromDay_spec] shows that this is the year asked for). *)
Definition YearFromDay (d : Z) : Z :=
  let y := 1970 + (400 * d) / 146097 in
  if d <? DayFromYear y then y - 1
  else if DayFromYear (y + 1) <=? d then y + 1
  else y.

Definition YearFromTime (t : Z) : Z := YearFromDay (Day t).

Definition LeapDays (y : Z) : Z := DaysInYear y - 365.
Definition InLeapYear (t : Z) : Z := LeapDays (YearFromTime t).

Definition DayWithinYear (t : Z) : Z := Day t - DayFromYear (YearFromTime t).

(** Month number (0 = January) of the day [dwy] of a year with [leap]
    extra days, as the table of the language specification has it. *)
Definition MonthOfYearDay (leap dwy : Z) : Z :=
  if dwy <? 31 then 0
  else if dwy <? 59 + leap then 1
  else if dwy <? 90 + leap then 2
  else if dwy <? 120 + leap then 3
  else if dwy <? 151 + leap then 4
  else if dwy <? 181 + leap then 5
  else if dwy <? 212 + leap then 6
  else if dwy <? 243 + leap then 7
  else if dwy <? 273 + leap then 8
  else if dwy <? 304 + leap then 9
  else if dwy <? 334 + leap then 10
  else 11.

(** Number of the first day of month [m] within its year. *)
Definition MonthStart (leap m : Z) : Z :=
  if m =? 0 then 0
  else if m =? 1 then 31
  else if m =? 2 then 59 + leap
  else if m =? 3 then 90 + leap
  else if m =? 4 then 120 + leap
  else if m =? 5 then 151 + leap
  else if m =? 6 then 181 + leap
  else if m =? 7 then 212 + leap
  else if m =? 8 then 243 + leap
  else if m =? 9 then 273 + leap
  else if m =? 10 then 304 + leap
  else 334 + leap.

Definition MonthFromTime (t : Z) : Z :=
  MonthOfYearDay (InLeapYear t) (DayWithinYear t).

Definition DateFromTime (t : Z) : Z :=
  DayWithinYear t - MonthStart (InLeapYear t) (MonthFromTime t) + 1.

(** [MakeDay year month date]: months outside 0..11 carry into the year,
    and the date is counted from the first of the month, whatever its
    value. *)
Definition MakeDay (year month date : Z) : Z :=
  let ym := year + month / 12 in
  let mn := month mod 12 in
  DayFromYear ym + MonthStart (LeapDays ym) mn + date - 1.

Definition MakeDate (day time : Z) : Z := day * msPerDay + time.

(** The [Date] methods used by the library, on local time values. *)
Definition getFullYear (t : Z) : Z := YearFromTime t.
Definition getMonth (t : Z) : Z := MonthFromTime t.
Definition getDate (t : Z) : Z := DateFromTime t.

Definition setDate (t dt : Z) : Z :=
  MakeDate (MakeDay (YearFromTime t) (MonthFromTime t) dt) (TimeWithinDay t).

Definition setMonth (t m : Z) : Z :=
  MakeDate (MakeDay (YearFromTime t) m (DateFromTime t)) (TimeWithinDay t).

Definition setFullYear (t y : Z) : Z :=
  MakeDate (MakeDay y (MonthFromTime t) (DateFromTime t)) (TimeWithinDay t).

(** [new Date(year, month, date)] at 00:00:00.000; a year from 0 to 99
    stands for 1900 + year. *)
Definition newDate (year month date : Z) : Z :=
  let yr := if (0 <=? year) && (year <=? 99) then 1900 + year else year in
  MakeDate (MakeDay yr month date) 0.

(** Days of month [m] (0 = January) of year [y]. *)
Definition DaysInMonth (y m : Z) : Z :=
  if m =? 1 then 28 + LeapDays y
  else if (m =? 3) || (m =? 5) || (m =? 8) || (m =? 10) then 30
  else 31.

End ES.

(** ** The date library *)

Module Dayjs.
Import ES.

(** A library object wraps one [Date]; the fields [$y], [$M] and [$D]
    that [init] caches are the getters of that date. *)
Definition year (d : Z) : Z := getFullYear d.
Definition month (d : Z) : Z := getMonth d.
Definition date (d : Z) : Z := getDate d.

(** [daysInMonth] is the day number of the last day of the month. *)
Definition daysInMonth (d : Z) : Z := DaysInMonth (year d) (month d).

(** [$set]: a date is set as it is; the month or the year is set on the
    first of the month, after which the day comes back, cut down to the
    length of the month reached. *)
Definition set_date (d int : Z) : Z := setDate d int.

Definition set_month (d int : Z) : Z :=
  let first := setMonth (set_date d 1) int in
  set_date first (Z.min (date d) (daysInMonth first)).

Definition set_year (d int : Z) : Z :=
  let first := setFullYear (set_date d 1) int in
  set_date first (Z.min (date d) (daysInMonth first)).

(** [add(n, 'day')] and [add(n, 'month')]. *)
Definition add_day (d n : Z) : Z := set_date d (date d + n).
Definition add_month (d n : Z) : Z := set_month d (month d + n).

(** Without a unit, [isAfter] and [isBefore] compare the two instants. *)
Definition isAfter (d that : Z) : bool := that <? d.
Definition isBefore (d that : Z) : bool := d <? that.

(** [Utils.a]: rounding towards zero. *)
Definition absFloor (n : Q) : Z :=
  if negb (Qle_bool 0 n) then Qceiling n else Qfloor n.

(** [Utils.m], the month difference taken over from moment.js, after its
    guard on the day numbers. *)
Definition monthDiff_body (a b : Z) : Q :=
  let wholeMonthDiff := (year b - year a) * 12 + (month b - month a) in
  let anchor := add_month a wholeMonthDiff in
  let c := b - anchor <? 0 in
  let anchor2 := add_month a (wholeMonthDiff + (if c then -1 else 1)) in
  (- (inject_Z wholeMonthDiff
      + inject_Z (b - anchor)
        / inject_Z (if c then anchor - anchor2 else anchor2 - anchor)))%Q.

(** The guard calls the function with the arguments exchanged; in that
    call the guard is false, so the body is reached at once. *)
Definition monthDiff (a b : Z) : Q :=
  if date a <? date b then (- monthDiff_body b a)%Q else monthDiff_body a b.

Definition diff_year (this that : Z) : Z :=
  absFloor (monthDiff this that / inject_Z 12)%Q.

Definition diff_day (this that : Z) : Z :=
  absFloor (inject_Z (this - that) / inject_Z msPerDay)%Q.

(** [dayjs('YYYY-MM-DD')]: the three groups of digits go to
    [new Date(year, month - 1, day)], which is local midnight. *)
Definition parse (y m d : Z) : Z := newDate y (m - 1) d.

End Dayjs.

(** ** The component *)

Module CRM.
Import ES Dayjs.

(** The text of a birthday, ['YYYY-MM-DD'], as the numbers its three
    groups of digits spell. *)
Record DateText := mkDateText { text_year : Z; text_month : Z; text_day : Z }.

Record Person := mkPerson {
  _id : string;
  name : string;
  birthday : DateText;
  email : string;
  phone : string;
  notes : string
}.

Definition dayjs (s : DateText) : Z :=
  parse (text_year s) (text_month s) (text_day s).

(** In the three functions below [today] stands for the value of
    [dayjs()], the instant of the call. *)
Definition getUpcomingBirthdays (people : list Person) (today : Z) : list Person :=
  let nextMonth := add_day today 30 in
  filter (fun person =>
    let birthday := dayjs (birthday person) in
    let thisYearBirthday := set_year birthday (year today) in
    let nextYearBirthday := set_year birthday (year today + 1) in
    (isAfter thisYearBirthday today && isBefore thisYearBirthday nextMonth)
    || (isAfter nextYearBirthday today && isBefore nextYearBirthday nextMonth))
    people.

Definition calculateAge (birthday : DateText) (today : Z) : Z :=
  diff_year today (dayjs birthday).

Definition getDaysUntilBirthday (birthday : DateText) (today : Z) : Z :=
  let thisYearBirthday := set_year (dayjs birthday) (year today) in
  let nextYearBirthday := set_year (dayjs birthday) (year today + 1) in
  if isAfter thisYearBirthday today
  then diff_day thisYearBirthday today
  else diff_day nextYearBirthday today.

(** *** Calls and what they complete with

    A call either returns a value or throws.  [InvalidDateError] is the
    error the specification names; the other errors are those a call of
    the person store can throw. *)

Inductive JsError :=
| InvalidDateError
| StoreError (message : string).

Inductive Completion (A : Type) :=
| Normal (v : A)
| Throw (e : JsError).
Arguments Normal {A} v.
Arguments Throw {A} e.

(** The three functions above have no [throw] and no [try], and the
    library calls they make return for every date: each call completes
    normally with the value computed. *)
Definition call_calculateAge (birthday : DateText) (today : Z) : Completion Z :=
  Normal (calculateAge birthday today).

Definition call_getDaysUntilBirthday (birthday : DateText) (today : Z) : Completion Z :=
  Normal (getDaysUntilBirthday birthday today).

Definition call_getUpcomingBirthdays (people : list Person) (today : Z)
  : Completion (list Person) :=
  Normal (getUpcomingBirthdays people today).

(** *** The actions on the list

    The component keeps [people], [loading], [modalVisible] and
    [editingPerson]; the person store is remote.  Of the store only its
    interface is known here, so the remote side is a type [Remote] and
    [Person.list] a function on it, both left open in the section.  The
    world also records what was written to the console and which store
    endpoints were requested, in the order of the calls. *)

Record ListResponse := mkListResponse { success : bool; data : list Person }.

Inductive StoreRequest :=
| ReqList
| ReqCreate (personData : Person)
| ReqUpdate (id : string) (personData : Person).

(** Of the endpoints of the store, [list] is the one that only reads. *)
Definition mutating (r : StoreRequest) : bool :=
  match r with
  | ReqList => false
  | ReqCreate _ | ReqUpdate _ _ => true
  end.

Inductive ConsoleLine :=
| Log (text : string) (id : string)
| Error (text : string) (error : JsError).

Section Actions.

Variable Remote : Type.
Variable Person_list : Remote -> Completion ListResponse * Remote.

Record World := mkWorld {
  people : list Person;
  loading : bool;
  modalVisible : bool;
  editingPerson : option Person;
  console : list ConsoleLine;
  requests : list StoreRequest;
  remote : Remote
}.

(** Statements run in a world and complete in a world. *)
Definition Action (A : Type) : Type := World -> Completion A * World.

Definition ret {A} (v : A) : Action A := fun w => (Normal v, w).

Definition bind {A B} (m : Action A) (k : A -> Action B) : Action B :=
  fun w =>
    match m w with
    | (Normal v, w') => k v w'
    | (Throw e, w') => (Throw e, w')
    end.

(** [try { body } catch (error) { handler }]: the handler starts in the
    world the body had reached when it threw. *)
Definition try_catch {A} (body : Action A) (handler : JsError -> Action A) : Action A :=
  fun w =>
    match body w with
    | (Normal v, w') => (Normal v, w')
    | (Throw e, w') => handler e w'
    end.

Definition setPeople (l : list Person) : Action unit := fun w =>
  (Normal tt, mkWorld l (loading w) (modalVisible w) (editingPerson w)
                      (console w) (requests w) (remote w)).

Definition setLoading (b : bool) : Action unit := fun w =>
  (Normal tt, mkWorld (people w) b (modalVisible w) (editingPerson w)
                      (console w) (requests w) (remote w)).

Definition console_write (l : ConsoleLine) : Action unit := fun w =>
  (Normal tt, mkWorld (people w) (loading w) (modalVisible w) (editingPerson w)
                      (console w ++ [l]) (requests w) (remote w)).

(** [await Person.list()]: the request goes out, and the store answers or
    the call throws. *)
Definition Person_list_call : Action ListResponse := fun w =>
  let (c, r) := Person_list (remote w) in
  (c, mkWorld (people w) (loading w) (modalVisible w) (editingPerson w)
              (console w) (requests w ++ [ReqList]) r).

Definition loadPeople : Action unit :=
  bind (setLoading true) (fun _ =>
  bind (try_catch
          (bind Person_list_call (fun response =>
           if success response then setPeople (data response) else ret tt))
          (fun error => console_write (Error "Failed to load people:" error)))
       (fun _ =>
  setLoading false)).

(** [handleDelete] starts [loadPeople] without awaiting it; the effects
    of the started call are taken up to its end. *)
Definition handleDelete (id : string) : Action unit :=
  try_catch
    (bind (console_write
             (Log "Delete functionality would be implemented here for ID:" id))
          (fun _ => loadPeople))
    (fun error => console_write (Error "Failed to delete person:" error)).

End Actions.

Arguments people {Remote} w.
Arguments loading {Remote} w.
Arguments modalVisible {Remote} w.
Arguments editingPerson {Remote} w.
Arguments console {Remote} w.
Arguments requests {Remote} w.
Arguments remote {Remote} w.
Arguments mkWorld {Remote}.

End CRM.

(** ** Calendar dates

    The notions the statements below are written with: a calendar date
    is a year, a month (0 = January) and a day of that month; [civil]
    is the instant at a time of day of a date; months are also counted
    through, month [k] being month [k mod 12] of year [k / 12]. *)

Module Calendar.
Import ES.

Definition valid_date (y m d : Z) : Prop :=
  0 <= m <= 11 /\ 1 <= d <= DaysInMonth y m.

Definition civil (y m d tod : Z) : Z := MakeDate (MakeDay y m d) tod.

Definition FirstOfMonth (k : Z) : Z := MakeDay 0 k 1.

Definition MonthLength (k : Z) : Z := DaysInMonth (k / 12) (k mod 12).

Definition stamp (k d tod : Z) : Z := MakeDate (FirstOfMonth k + d - 1) tod.

(** The day that comes back after the month or the year was set: the
    day asked for, or the last day of month [j] when that month is
    shorter. *)
Definition clamp (d j : Z) : Z := Z.min d (MonthLength j).

(** The month a date of month [kb] falls in, in the year of month [kt]. *)
Definition this_month (kt kb : Z) : Z := 12 * (kt / 12) + kb mod 12.

(** A rational is in the bracket of [k] when it is at least [k] and less
    than [k + 1]. *)
Definition bracket (q : Q) (k : Z) : Prop :=
  (inject_Z k <= q)%Q /\ (q < inject_Z (k + 1))%Q.

End Calendar.

(** ** Notions of the statements *)

Module Notions.
Import ES Dayjs Calendar CRM.

(** The instant at [hh]:[mi] on day [d] of month [mo] (1 = January) of
    year [y]. *)
Definition local_time (y mo d hh mi : Z) : Z :=
  civil y (mo - 1) d ((hh * 60 + mi) * 60000).

(** A birthday text is well formed when it names a day of the calendar;
    the year has its four digits and is not one of the years 0 to 99,
    which [Date] reads as 1900 to 1999. *)
Definition well_formed (s : DateText) : bool :=
  (100 <=? text_year s) && (text_year s <=? 9999)
  && (1 <=? text_month s) && (text_month s <=? 12)
  && (1 <=? text_day s)
  && (text_day s <=? DaysInMonth (text_year s) (text_month s - 1)).

(** The date [getDaysUntilBirthday] counts the days to: the occurrence of
    the birthday in the year of [today] when it is after [today], that of
    the year after otherwise. *)
Definition nextOccurrence (birthday : DateText) (today : Z) : Z :=
  let thisYearBirthday := set_year (dayjs birthday) (year today) in
  let nextYearBirthday := set_year (dayjs birthday) (year today + 1) in
  if isAfter thisYearBirthday today then thisYearBirthday else nextYearBirthday.

(** Month [m], day [d] comes before month [m'], day [d'] in the year. *)
Definition precedes (m d m' d' : Z) : bool :=
  (m <? m') || ((m =? m') && (d <? d')).

(** Completed birthdays: the years from the year of birth to the year of
    [today], less one when the month and day of [today] come before those
    of the birthday. *)
Definition completed_birthdays (birthday : DateText) (today : Z) : Z :=
  year today - text_year birthday
  - (if precedes (month today + 1) (date today)
                 (text_month birthday) (text_day birthday)
     then 1 else 0).

(** The same count when the day of the birthday is cut down to the length
    its month has in the year of [today]: 29 February is the 28th in
    a year that is not a leap year. *)
Definition completed_birthdays_clamped (birthday : DateText) (today : Z) : Z :=
  year today - text_year birthday
  - (if precedes (month today + 1) (date today)
                 (text_month birthday)
                 (Z.min (text_day birthday)
                        (DaysInMonth (year today) (text_month birthday - 1)))
     then 1 else 0).

(** [Subseq l1 l2]: [l1] is [l2] with some elements left out, the others
    in their order. *)
Inductive Subseq {A : Type} : list A -> list A -> Prop :=
| Subseq_nil : Subseq [] []
| Subseq_keep x l1 l2 : Subseq l1 l2 -> Subseq (x :: l1) (x :: l2)
| Subseq_drop x l1 l2 : Subseq l1 l2 -> Subseq l1 (x :: l2).

(** The text a date of the calendar is written as. *)
Definition text_of (t : Z) : DateText :=
  mkDateText (year t) (month t + 1) (date t).

(** A person with a given birthday, and two stores to run the actions
    against: one that answers with its records, one whose calls throw. *)
Definition person_born (id : string) (y mo d : Z) : Person :=
  mkPerson id "" (mkDateText y mo d) "" "" "".

Definition answering_store (records : list Person)
  : Completion ListResponse * list Person :=
  (Normal (mkListResponse true records), records).

Definition failing_store (records : list Person)
  : Completion ListResponse * list Person :=
  (Throw (StoreError "network"), records).

Definition refusing_store (records : list Person)
  : Completion ListResponse * list Person :=
  (Normal (mkListResponse false []), records).

Definition initial_world (records : list Person) : World (list Person) :=
  mkWorld [] false false None [] [] records.

End Notions.

(** ** The table and the form

    The rest of the component: the cell and the sorter of the table that
    work on birthdays, and the handlers of the form.  The form holds the
    values of its fields; [Person.create] and [Person.update] are, like
    [Person.list], functions on the remote side left open. *)

Module Page.
Import ES Dayjs CRM.

(** [d.format('YYYY-MM-DD')], as the numbers the three groups spell. *)
Definition format_YYYY_MM_DD (d : Z) : DateText :=
  mkDateText (year d) (month d + 1) (date d).

(** The cell of the column of the days: the badge "Today!" when the day
    count is 0, the count otherwise. *)
Inductive DaysCell :=
| TodayBadge
| DaysNumber (days : Z).

Definition renderDaysUntil (record : Person) (today : Z) : DaysCell :=
  let days := getDaysUntilBirthday (birthday record) today in
  if days =? 0 then TodayBadge else DaysNumber days.

(** [unix()] is the floor of the seconds since the epoch.  The epoch is
    counted in universal time: a date is behind its local time value by
    the offset the zone has on that date, [utcOffset d] milliseconds,
    which daylight saving makes differ from date to date. *)
Definition unix (utcOffset : Z -> Z) (d : Z) : Z := (d - utcOffset d) / 1000.

(** The sorter of the column of the birthdays. *)
Definition sortBirthday (utcOffset : Z -> Z) (a b : Person) : Z :=
  unix utcOffset (dayjs (birthday a)) - unix utcOffset (dayjs (birthday b)).

(** The values the form hands to [handleSubmit]; the birthday is the
    date object of the picker. *)
Record FormValues := mkFormValues {
  v_name : string;
  v_birthday : Z;
  v_email : string;
  v_phone : string;
  v_notes : string
}.

(** [{ ...values, birthday: values.birthday.format('YYYY-MM-DD') }]; the
    object has no [_id], the field stays empty. *)
Definition personData_of (values : FormValues) : Person :=
  mkPerson "" (v_name values) (format_YYYY_MM_DD (v_birthday values))
           (v_email values) (v_phone values) (v_notes values).

(** [{ ...person, birthday: dayjs(person.birthday) }], on the fields the
    form has. *)
Definition fields_of (person : Person) : FormValues :=
  mkFormValues (name person) (dayjs (birthday person))
               (email person) (phone person) (notes person).

Record SaveResponse := mkSaveResponse { save_success : bool }.

Section Handlers.

Variable Remote : Type.
Variable Person_list : Remote -> Completion ListResponse * Remote.
Variable Person_create : Person -> Remote -> Completion SaveResponse * Remote.
Variable Person_update : string -> Person -> Remote -> Completion SaveResponse * Remote.

Record Page := mkPage {
  world : World Remote;
  formFields : option FormValues
}.

Definition PageAction (A : Type) : Type := Page -> Completion A * Page.

Definition pret {A} (v : A) : PageAction A := fun pg => (Normal v, pg).

Definition pbind {A B} (m : PageAction A) (k : A -> PageAction B) : PageAction B :=
  fun pg =>
    match m pg with
    | (Normal v, pg') => k v pg'
    | (Throw e, pg') => (Throw e, pg')
    end.

Definition ptry_catch {A} (body : PageAction A) (handler : JsError -> PageAction A)
  : PageAction A :=
  fun pg =>
    match body pg with
    | (Normal v, pg') => (Normal v, pg')
    | (Throw e, pg') => handler e pg'
    end.

(** A statement on the state of the component leaves the form alone. *)
Definition lift {A} (m : Action Remote A) : PageAction A := fun pg =>
  let (c, w) := m (world pg) in (c, mkPage w (formFields pg)).

Definition setModalVisible (b : bool) : Action Remote unit := fun w =>
  (Normal tt, mkWorld (people w) (loading w) b (editingPerson w)
                      (console w) (requests w) (remote w)).

Definition setEditingPerson (p : option Person) : Action Remote unit := fun w =>
  (Normal tt, mkWorld (people w) (loading w) (modalVisible w) p
                      (console w) (requests w) (remote w)).

Definition resetFields : PageAction unit := fun pg =>
  (Normal tt, mkPage (world pg) None).

Definition setFieldsValue (v : FormValues) : PageAction unit := fun pg =>
  (Normal tt, mkPage (world pg) (Some v)).

(** [await Person.update(id, personData)] and
    [await Person.create(personData)]. *)
Definition Person_update_call (id : string) (personData : Person)
  : Action Remote SaveResponse := fun w =>
  let (c, r) := Person_update id personData (remote w) in
  (c, mkWorld (people w) (loading w) (modalVisible w) (editingPerson w)
              (console w) (requests w ++ [ReqUpdate id personData]) r).

Definition Person_create_call (personData : Person)
  : Action Remote SaveResponse := fun w =>
  let (c, r) := Person_create personData (remote w) in
  (c, mkWorld (people w) (loading w) (modalVisible w) (editingPerson w)
              (console w) (requests w ++ [ReqCreate personData]) r).

Definition handleSubmit (values : FormValues) : PageAction unit :=
  ptry_catch
    (let personData := personData_of values in
     pbind (fun pg =>
              match editingPerson (world pg) with
              | Some editing => lift (Person_update_call (_id editing) personData) pg
              | None => lift (Person_create_call personData) pg
              end)
           (fun response =>
     if save_success response then
       pbind (lift (setModalVisible false)) (fun _ =>
       pbind resetFields (fun _ =>
       pbind (lift (setEditingPerson None)) (fun _ =>
       lift (loadPeople Remote Person_list))))
     else pret tt))
    (fun error => lift (console_write Remote (Error "Failed to save person:" error))).

Definition handleEdit (person : Person) : PageAction unit :=
  pbind (lift (setEditingPerson (Some person))) (fun _ =>
  pbind (setFieldsValue (fields_of person)) (fun _ =>
  lift (setModalVisible true))).

(** The button "Add Person", and [onCancel] of the dialog (the button
    "Cancel" does the same). *)
Definition onAddPerson : PageAction unit := lift (setModalVisible true).

Definition onCancel : PageAction unit :=
  pbind (lift (setModalVisible false)) (fun _ =>
  pbind resetFields (fun _ =>
  lift (setEditingPerson None))).

(** What the user and the page can set off. *)
Inductive Event :=
| Mounted
| AddPersonClicked
| EditClicked (person : Person)
| CancelClicked
| FormFinished (values : FormValues)
| DeleteConfirmed (id : string).

Definition handle (e : Event) : PageAction unit :=
  match e with
  | Mounted => lift (loadPeople Remote Person_list)
  | AddPersonClicked => onAddPerson
  | EditClicked person => handleEdit person
  | CancelClicked => onCancel
  | FormFinished values => handleSubmit values
  | DeleteConfirmed id => lift (handleDelete Remote Person_list id)
  end.

Definition after (e : Event) (pg : Page) : Page := snd (handle e pg).

Definition after_all (es : list Event) (pg : Page) : Page :=
  fold_left (fun pg e => after e pg) es pg.

End Handlers.

Arguments world {Remote} p.
Arguments formFields {Remote} p.
Arguments mkPage {Remote}.

(** The page as it is first rendered. *)
Definition first_page {Remote : Type} (r : Remote) : Page Remote :=
  mkPage (mkWorld [] false false None [] [] r) None.

End Page.

(** ** Notions of the statements about the form *)

Module PageNotions.
Import ES Dayjs CRM Notions Page.

Section Saving.
Variable Remote : Type.
Variable Person_create : Person -> Remote -> Completion SaveResponse * Remote.
Variable Person_update : string -> Person -> Remote -> Completion SaveResponse * Remote.

(** The request [handleSubmit] sends for the values of the form, and the
    answer of the store to it. *)
Definition save_request (values : FormValues) (w : World Remote) : StoreRequest :=
  match editingPerson w with
  | Some editing => ReqUpdate (_id editing) (personData_of values)
  | None => ReqCreate (personData_of values)
  end.

Definition save_answer (values : FormValues) (w : World Remote)
  : Completion SaveResponse * Remote :=
  match editingPerson w with
  | Some editing => Person_update (_id editing) (personData_of values) (remote w)
  | None => Person_create (personData_of values) (remote w)
  end.

(** The save went through: the store answered, with success. *)
Definition saved (values : FormValues) (w : World Remote) : bool :=
  match fst (save_answer values w) with
  | Normal response => save_success response
  | Throw _ => false
  end.

End Saving.

(** The dialog is closed only with no person being edited and the form
    reset. *)
Definition closed_is_clean {Remote : Type} (pg : Page Remote) : Prop :=
  modalVisible (world pg) = false ->
  editingPerson (world pg) = None /\ formFields pg = None.

(** [l1] is the beginning of [l2]. *)
Definition begins_with {A : Type} (l2 l1 : list A) : Prop :=
  exists rest, l2 = l1 ++ rest.

(** Birthdays in the order of the calendar of all years. *)
Definition born_before (a b : DateText) : Prop :=
  text_year a < text_year b
  \/ (text_year a = text_year b
      /\ (text_month a < text_month b
          \/ (text_month a = text_month b /\ text_day a < text_day b))).

(** Stores to run the form against: one that saves, one whose calls
    throw. *)
Definition saving_create (personData : Person) (records : list Person)
  : Completion SaveResponse * list Person :=
  (Normal (mkSaveResponse true), records ++ [personData]).

Definition saving_update (id : string) (personData : Person) (records : list Person)
  : Completion SaveResponse * list Person :=
  (Normal (mkSaveResponse true), records).

Definition failing_create (personData : Person) (records : list Person)
  : Completion SaveResponse * list Person :=
  (Throw (StoreError "network"), records).

Definition failing_update (id : string) (personData : Person) (records : list Person)
  : Completion SaveResponse * list Person :=
  (Throw (StoreError "network"), records).

(** A zone to try the sorter in: five hours behind universal time, four
    from the 90th to the 300th day of a year of 365 days. *)
Definition summer_time_zone (d : Z) : Z :=
  if (90 <=? Day d mod 365) && (Day d mod 365 <? 300)
  then -14400000 else -18000000.

End PageNotions.

(** ** Texts that are not dates

    The birthday of a person is a text.  Besides the texts of three
    groups of digits there are the texts the library cannot read as a
    date: for those [dayjs] gives an Invalid Date, on which every setter
    gives an Invalid Date again, every comparison is false and the
    difference in days is NaN.  The three functions of the component are
    taken up again over both kinds of text. *)

Module Texts.
Import ES Dayjs CRM.

Inductive BirthdayText :=
| Digits (s : DateText)
| NotADate.

Inductive DateObject :=
| ValidDate (t : Z)
| InvalidDate.

Inductive JsNumber :=
| Num (z : Z)
| NaN.

Definition dayjs_text (b : BirthdayText) : DateObject :=
  match b with
  | Digits s => ValidDate (dayjs s)
  | NotADate => InvalidDate
  end.

Definition set_year_object (d : DateObject) (int : Z) : DateObject :=
  match d with
  | ValidDate t => ValidDate (set_year t int)
  | InvalidDate => InvalidDate
  end.

Definition isAfter_object (d : DateObject) (that : Z) : bool :=
  match d with
  | ValidDate t => isAfter t that
  | InvalidDate => false
  end.

Definition isBefore_object (d : DateObject) (that : Z) : bool :=
  match d with
  | ValidDate t => isBefore t that
  | InvalidDate => false
  end.

Definition diff_day_object (d : DateObject) (that : Z) : JsNumber :=
  match d with
  | ValidDate t => Num (diff_day t that)
  | InvalidDate => NaN
  end.

Definition getDaysUntilBirthday_text (birthday : BirthdayText) (today : Z) : JsNumber :=
  let thisYearBirthday := set_year_object (dayjs_text birthday) (year today) in
  let nextYearBirthday := set_year_object (dayjs_text birthday) (year today + 1) in
  if isAfter_object thisYearBirthday today
  then diff_day_object thisYearBirthday today
  else diff_day_object nextYearBirthday today.

(** The people are any records with a birthday text. *)
Definition getUpcomingBirthdays_text {A : Type} (birthday_text : A -> BirthdayText)
    (people : list A) (today : Z) : list A :=
  let nextMonth := add_day today 30 in
  filter (fun person =>
    let birthday := dayjs_text (birthday_text person) in
    let thisYearBirthday := set_year_object birthday (year today) in
    let nextYearBirthday := set_year_object birthday (year today + 1) in
    (isAfter_object thisYearBirthday today && isBefore_object thisYearBirthday nextMonth)
    || (isAfter_object nextYearBirthday today && isBefore_object nextYearBirthday nextMonth))
    people.

Section InvalidAge.

(** What [diff(..., 'year')] returns against an Invalid Date is decided
    inside the library, not in the component: some number, or NaN. *)
Variable diff_year_invalid : JsNumber.

Definition diff_year_object (this : Z) (that : DateObject) : JsNumber :=
  match that with
  | ValidDate t => Num (diff_year this t)
  | InvalidDate => diff_year_invalid
  end.

Definition calculateAge_text (birthday : BirthdayText) (today : Z) : JsNumber :=
  diff_year_object today (dayjs_text birthday).

Definition call_calculateAge_text (birthday : BirthdayText) (today : Z)
  : Completion JsNumber :=
  Normal (calculateAge_text birthday today).

End InvalidAge.

Definition call_getDaysUntilBirthday_text (birthday : BirthdayText) (today : Z)
  : Completion JsNumber :=
  Normal (getDaysUntilBirthday_text birthday today).

Definition call_getUpcomingBirthdays_text {A : Type}
    (birthday_text : A -> BirthdayText) (people : list A) (today : Z)
  : Completion (list A) :=
  Normal (getUpcomingBirthdays_text birthday_text people today).

End Texts.

(** * Properties *)

(** ** Time values and calendar dates *)

Module ESFacts.
Import ES.

Ltac zdiv := Z.div_mod_to_equations; lia.

Lemma Day_MakeDate (d tod : Z) :
  0 <= tod < msPerDay -> Day (MakeDate d tod) = d.
Proof.
  intros H. unfold Day, MakeDate, msPerDay in *. zdiv.
Qed.

Lemma TimeWithinDay_MakeDate (d tod : Z) :
  0 <= tod < msPerDay -> TimeWithinDay (MakeDate d tod) = tod.
Proof.
  intros H. unfold TimeWithinDay, MakeDate, msPerDay in *. zdiv.
Qed.

Lemma TimeWithinDay_range (t : Z) : 0 <= TimeWithinDay t < msPerDay.
Proof. unfold TimeWithinDay, msPerDay. zdiv. Qed.

Lemma MakeDate_Day (t : Z) : MakeDate (Day t) (TimeWithinDay t) = t.
Proof. unfold MakeDate, Day, TimeWithinDay, msPerDay. zdiv. Qed.

Lemma LeapDays_cases (y : Z) : LeapDays y = 0 \/ LeapDays y = 1.
Proof.
  unfold LeapDays, DaysInYear.
  destruct (y mod 4 =? 0), (y mod 100 =? 0), (y mod 400 =? 0); simpl; lia.
Qed.

Lemma DayFromYear_succ (y : Z) :
  DayFromYear (y + 1) = DayFromYear y + DaysInYear y.
Proof.
  unfold DayFromYear, DaysInYear.
  assert (H4 : (y + 1 - 1969) / 4
               = (y - 1969) / 4 + (if y mod 4 =? 0 then 1 else 0))
    by (destruct (Z.eqb_spec (y mod 4) 0); zdiv).
  assert (H100 : (y + 1 - 1901) / 100
                 = (y - 1901) / 100 + (if y mod 100 =? 0 then 1 else 0))
    by (destruct (Z.eqb_spec (y mod 100) 0); zdiv).
  assert (H400 : (y + 1 - 1601) / 400
                 = (y - 1601) / 400 + (if y mod 400 =? 0 then 1 else 0))
    by (destruct (Z.eqb_spec (y mod 400) 0); zdiv).
  assert (M1 : y mod 100 = 0 -> y mod 4 = 0) by zdiv.
  assert (M2 : y mod 400 = 0 -> y mod 100 = 0) by zdiv.
  rewrite H4, H100, H400.
  destruct (Z.eqb_spec (y mod 4) 0), (Z.eqb_spec (y mod 100) 0),
    (Z.eqb_spec (y mod 400) 0); simpl negb; cbv iota; lia.
Qed.

Lemma DaysInYear_LeapDays (y : Z) : DaysInYear y = 365 + LeapDays y.
Proof. unfold LeapDays. lia. Qed.

Lemma DayFromYear_lt (y1 y2 : Z) : y1 < y2 -> DayFromYear y1 < DayFromYear y2.
Proof. intros H. unfold DayFromYear. zdiv. Qed.

Lemma DayFromYear_le (y1 y2 : Z) : y1 <= y2 -> DayFromYear y1 <= DayFromYear y2.
Proof. intros H. unfold DayFromYear. zdiv. Qed.

(** The year computed is the one the language specification asks for. *)
Lemma YearFromDay_spec (d : Z) :
  DayFromYear (YearFromDay d) <= d < DayFromYear (YearFromDay d + 1).
Proof.
  unfold YearFromDay.
  set (y := 1970 + 400 * d / 146097).
  assert (Hy : 146097 * (y - 1970) <= 400 * d < 146097 * (y - 1969))
    by (unfold y; zdiv).
  clearbody y.
  destruct (Z.ltb_spec d (DayFromYear y)) as [H1 | H1].
  - replace (y - 1 + 1) with y by lia. split; [|lia].
    unfold DayFromYear in *. zdiv.
  - destruct (Z.leb_spec (DayFromYear (y + 1)) d) as [H2 | H2].
    + split; [lia|]. unfold DayFromYear in *. zdiv.
    + lia.
Qed.

Lemma YearFromDay_unique (d y : Z) :
  DayFromYear y <= d < DayFromYear (y + 1) -> YearFromDay d = y.
Proof.
  intros H. pose proof (YearFromDay_spec d) as S.
  destruct (Z.lt_trichotomy (YearFromDay d) y) as [L | [E | G]]; [|exact E|].
  - pose proof (DayFromYear_le (YearFromDay d + 1) y). lia.
  - pose proof (DayFromYear_le (y + 1) (YearFromDay d)). lia.
Qed.

End ESFacts.

Module CalFacts.
Import ES Calendar ESFacts.

(** Case analysis on every integer comparison in sight, closing the
    branches that arithmetic decides. *)
Ltac zb_step :=
  match goal with
  | |- context [Z.ltb ?a ?b] => destruct (Z.ltb_spec a b)
  | |- context [Z.leb ?a ?b] => destruct (Z.leb_spec a b)
  | |- context [Z.eqb ?a ?b] => destruct (Z.eqb_spec a b)
  | H : context [Z.ltb ?a ?b] |- _ => destruct (Z.ltb_spec a b)
  | H : context [Z.leb ?a ?b] |- _ => destruct (Z.leb_spec a b)
  | H : context [Z.eqb ?a ?b] |- _ => destruct (Z.eqb_spec a b)
  end;
  cbv beta iota delta [orb andb negb] in *; try lia.
Ltac zb := cbv beta iota delta [orb andb negb] in *; try lia; repeat zb_step.

Lemma civil_unfold (y m d tod : Z) :
  civil y m d tod = MakeDate (MakeDay y m d) tod.
Proof. reflexivity. Qed.

Lemma MakeDay_in_range (y m d : Z) :
  0 <= m <= 11 -> MakeDay y m d = DayFromYear y + MonthStart (LeapDays y) m + d - 1.
Proof.
  intros H. unfold MakeDay.
  replace (m / 12) with 0 by zdiv. replace (m mod 12) with m by zdiv.
  now rewrite Z.add_0_r.
Qed.

Lemma MonthStart_succ (leap m : Z) :
  0 <= m < 11 -> leap = 0 \/ leap = 1 ->
  MonthStart leap (m + 1) = MonthStart leap m + (if m =? 1 then 28 + leap
    else if (m =? 3) || (m =? 5) || (m =? 8) || (m =? 10) then 30 else 31).
Proof.
  intros Hm Hl. unfold MonthStart. destruct Hl; subst leap; zb.
Qed.

Lemma MakeDay_year_bounds (y m d : Z) :
  valid_date y m d ->
  DayFromYear y <= MakeDay y m d < DayFromYear (y + 1).
Proof.
  intros [Hm Hd]. rewrite MakeDay_in_range by assumption.
  rewrite DayFromYear_succ, DaysInYear_LeapDays.
  unfold DaysInMonth, MonthStart in *.
  destruct (LeapDays_cases y) as [L | L]; rewrite L in *; zb.
Qed.

Lemma MonthOfYearDay_MonthStart (leap m d : Z) :
  leap = 0 \/ leap = 1 -> 0 <= m <= 11 ->
  1 <= d <= (if m =? 1 then 28 + leap
             else if (m =? 3) || (m =? 5) || (m =? 8) || (m =? 10) then 30 else 31) ->
  MonthOfYearDay leap (MonthStart leap m + d - 1) = m.
Proof.
  intros Hl Hm Hd. unfold MonthOfYearDay, MonthStart.
  destruct Hl; subst leap; zb.
Qed.

Section Getters.
Variables y m d tod : Z.
Hypothesis Hv : valid_date y m d.
Hypothesis Ht : 0 <= tod < msPerDay.

Lemma YearFromTime_civil : YearFromTime (civil y m d tod) = y.
Proof.
  unfold YearFromTime, civil. rewrite Day_MakeDate by assumption.
  apply YearFromDay_unique, MakeDay_year_bounds, Hv.
Qed.

Lemma MonthFromTime_civil : MonthFromTime (civil y m d tod) = m.
Proof.
  unfold MonthFromTime, InLeapYear, DayWithinYear.
  rewrite YearFromTime_civil. unfold civil. rewrite Day_MakeDate by assumption.
  destruct Hv as [Hm Hd]. rewrite MakeDay_in_range by assumption.
  replace (DayFromYear y + MonthStart (LeapDays y) m + d - 1 - DayFromYear y)
    with (MonthStart (LeapDays y) m + d - 1) by lia.
  apply MonthOfYearDay_MonthStart; auto using LeapDays_cases.
Qed.

Lemma DateFromTime_civil : DateFromTime (civil y m d tod) = d.
Proof.
  unfold DateFromTime. rewrite MonthFromTime_civil.
  unfold InLeapYear, DayWithinYear. rewrite YearFromTime_civil.
  unfold civil. rewrite Day_MakeDate by assumption.
  destruct Hv as [Hm Hd]. rewrite MakeDay_in_range by assumption. lia.
Qed.

Lemma TimeWithinDay_civil : TimeWithinDay (civil y m d tod) = tod.
Proof. apply TimeWithinDay_MakeDate, Ht. Qed.

End Getters.

(** Every time value is a calendar date and a time of day. *)
Lemma MonthOfYearDay_range (leap dwy : Z) : 0 <= MonthOfYearDay leap dwy <= 11.
Proof.
  unfold MonthOfYearDay. zb.
Qed.

Lemma DayWithinYear_range (t : Z) :
  0 <= DayWithinYear t < 365 + InLeapYear t.
Proof.
  unfold DayWithinYear, InLeapYear, YearFromTime.
  pose proof (YearFromDay_spec (Day t)) as S.
  rewrite DayFromYear_succ, DaysInYear_LeapDays in S. lia.
Qed.

Lemma DateFromTime_range (t : Z) :
  1 <= DateFromTime t <= DaysInMonth (YearFromTime t) (MonthFromTime t).
Proof.
  unfold DateFromTime, MonthFromTime, DaysInMonth.
  pose proof (DayWithinYear_range t) as R.
  fold (InLeapYear t).
  destruct (LeapDays_cases (YearFromTime t)) as [L | L];
    fold (InLeapYear t) in L; rewrite L in *;
    unfold MonthOfYearDay, MonthStart; zb.
Qed.

Lemma valid_date_getters (t : Z) :
  valid_date (YearFromTime t) (MonthFromTime t) (DateFromTime t).
Proof.
  split; [apply MonthOfYearDay_range | apply DateFromTime_range].
Qed.

Lemma civil_getters (t : Z) :
  civil (YearFromTime t) (MonthFromTime t) (DateFromTime t) (TimeWithinDay t) = t.
Proof.
  unfold civil.
  rewrite MakeDay_in_range by apply MonthOfYearDay_range.
  transitivity (MakeDate (Day t) (TimeWithinDay t)); [| apply MakeDate_Day].
  f_equal. unfold DateFromTime, DayWithinYear, InLeapYear. lia.
Qed.

(** Months counted through. *)
Lemma MakeDay_index (y m d : Z) :
  MakeDay y m d = FirstOfMonth (12 * y + m) + d - 1.
Proof.
  unfold FirstOfMonth, MakeDay.
  replace (0 + (12 * y + m) / 12) with (y + m / 12) by zdiv.
  replace ((12 * y + m) mod 12) with (m mod 12) by zdiv. lia.
Qed.

Lemma civil_stamp (y m d tod : Z) : civil y m d tod = stamp (12 * y + m) d tod.
Proof. unfold civil, stamp. now rewrite MakeDay_index. Qed.

Lemma FirstOfMonth_succ (k : Z) :
  FirstOfMonth (k + 1) = FirstOfMonth k + MonthLength k.
Proof.
  unfold FirstOfMonth, MakeDay, MonthLength, DaysInMonth.
  rewrite !Z.add_0_l.
  assert (Hm : 0 <= k mod 12 < 12) by zdiv.
  destruct (Z.eq_dec (k mod 12) 11) as [E | N].
  - replace ((k + 1) / 12) with (k / 12 + 1) by zdiv.
    replace ((k + 1) mod 12) with 0 by zdiv.
    rewrite E, DayFromYear_succ, DaysInYear_LeapDays.
    unfold MonthStart. zb.
  - replace ((k + 1) / 12) with (k / 12) by zdiv.
    replace ((k + 1) mod 12) with (k mod 12 + 1) by zdiv.
    rewrite MonthStart_succ by (auto using LeapDays_cases; lia). lia.
Qed.

Lemma MonthLength_range (k : Z) : 28 <= MonthLength k <= 31.
Proof.
  unfold MonthLength, DaysInMonth.
  destruct (LeapDays_cases (k / 12)) as [L | L]; rewrite L; zb.
Qed.

Lemma FirstOfMonth_lt (k k' : Z) :
  k < k' -> FirstOfMonth k + MonthLength k <= FirstOfMonth k'.
Proof.
  intros H. replace k' with (k + 1 + (k' - k - 1)) by lia.
  assert (Hn : 0 <= k' - k - 1) by lia.
  generalize dependent (k' - k - 1). intros n Hn.
  pattern n. apply natlike_ind; [| | exact Hn].
  - rewrite Z.add_0_r, FirstOfMonth_succ. lia.
  - intros x Hx IH. replace (k + 1 + Z.succ x) with (k + 1 + x + 1) by lia.
    rewrite FirstOfMonth_succ. pose proof (MonthLength_range (k + 1 + x)). lia.
Qed.

(** Instants compare as their months do, then their days, then their
    times of day. *)
Lemma stamp_lt_month (k d tod k' d' tod' : Z) :
  k < k' -> d <= MonthLength k -> 1 <= d' ->
  0 <= tod < msPerDay -> 0 <= tod' < msPerDay ->
  stamp k d tod < stamp k' d' tod'.
Proof.
  intros Hk Hd Hd' Ht Ht'. pose proof (FirstOfMonth_lt k k' Hk).
  unfold stamp, MakeDate, msPerDay in *. nia.
Qed.

Lemma stamp_le_inv (k d tod k' d' tod' : Z) :
  stamp k d tod <= stamp k' d' tod' ->
  1 <= d -> d' <= MonthLength k' ->
  0 <= tod < msPerDay -> 0 <= tod' < msPerDay ->
  k <= k'.
Proof.
  intros H Hd Hd' Ht Ht'.
  destruct (Z_le_gt_dec k k') as [L | G]; [exact L|].
  pose proof (stamp_lt_month k' d' tod' k d tod). lia.
Qed.

Lemma stamp_diff (k d tod d' tod' : Z) :
  stamp k d tod - stamp k d' tod' = (d - d') * msPerDay + (tod - tod').
Proof. unfold stamp, MakeDate. lia. Qed.

Section StampGetters.
Variables k d tod : Z.
Hypothesis Hd : 1 <= d <= MonthLength k.
Hypothesis Ht : 0 <= tod < msPerDay.

Lemma stamp_civil : stamp k d tod = civil (k / 12) (k mod 12) d tod.
Proof. rewrite civil_stamp. f_equal. zdiv. Qed.

Lemma stamp_valid : valid_date (k / 12) (k mod 12) d.
Proof. split; [zdiv | exact Hd]. Qed.

Lemma YearFromTime_stamp : YearFromTime (stamp k d tod) = k / 12.
Proof. rewrite stamp_civil. apply YearFromTime_civil; auto using stamp_valid. Qed.

Lemma MonthFromTime_stamp : MonthFromTime (stamp k d tod) = k mod 12.
Proof. rewrite stamp_civil. apply MonthFromTime_civil; auto using stamp_valid. Qed.

Lemma DateFromTime_stamp : DateFromTime (stamp k d tod) = d.
Proof. rewrite stamp_civil. apply DateFromTime_civil; auto using stamp_valid. Qed.

Lemma TimeWithinDay_stamp : TimeWithinDay (stamp k d tod) = tod.
Proof. apply TimeWithinDay_MakeDate, Ht. Qed.

End StampGetters.

(** Every time value is the stamp of its month, day and time of day. *)
Lemma stamp_getters (t : Z) :
  stamp (12 * YearFromTime t + MonthFromTime t) (DateFromTime t) (TimeWithinDay t) = t.
Proof. rewrite <- civil_stamp. apply civil_getters. Qed.

Lemma MonthLength_index (y m : Z) :
  0 <= m <= 11 -> MonthLength (12 * y + m) = DaysInMonth y m.
Proof.
  intros H. unfold MonthLength.
  replace ((12 * y + m) / 12) with y by zdiv.
  replace ((12 * y + m) mod 12) with m by zdiv. reflexivity.
Qed.

End CalFacts.

(** ** The operations of the date library *)

Module DayjsFacts.
Import ES Calendar ESFacts CalFacts Dayjs.

(** *** Rounding *)

Lemma Qfloor_eq (q : Q) (z : Z) :
  (inject_Z z <= q)%Q -> (q < inject_Z (z + 1))%Q -> Qfloor q = z.
Proof.
  intros H1 H2.
  pose proof (Qfloor_le q) as F1. pose proof (Qlt_floor q) as F2.
  assert (z < Qfloor q + 1) by (rewrite Zlt_Qlt; eapply Qle_lt_trans; eauto).
  assert (Qfloor q < z + 1) by (rewrite Zlt_Qlt; eapply Qle_lt_trans; eauto).
  lia.
Qed.

Lemma inject_Z_div_bounds (n d : Z) :
  0 < d ->
  (inject_Z (n / d) <= inject_Z n / inject_Z d)%Q
  /\ (inject_Z n / inject_Z d < inject_Z (n / d + 1))%Q.
Proof.
  intros Hd. rewrite (Zdiv_Qdiv n d). split; [apply Qfloor_le | apply Qlt_floor].
Qed.

Lemma absFloor_nonneg (q : Q) : (0 <= q)%Q -> absFloor q = Qfloor q.
Proof.
  intros H. unfold absFloor.
  destruct (Qle_bool 0 q) eqn:E; [reflexivity|].
  apply Qle_bool_iff in H. congruence.
Qed.

Lemma absFloor_quotient (n d : Z) :
  0 <= n -> 0 < d -> absFloor (inject_Z n / inject_Z d) = n / d.
Proof.
  intros Hn Hd. rewrite absFloor_nonneg.
  - symmetry. apply Zdiv_Qdiv.
  - apply Qle_shift_div_l.
    + change (inject_Z 0 < inject_Z d)%Q. now rewrite <- Zlt_Qlt.
    + rewrite Qmult_0_l. change (inject_Z 0 <= inject_Z n)%Q. now rewrite <- Zle_Qle.
Qed.

(** A quantity of at least [k] and less than [k + 1] months, [k] not
    negative, is [k / 12] whole years. *)
Lemma absFloor_twelfth (q : Q) (k : Z) :
  0 <= k -> (inject_Z k <= q)%Q -> (q < inject_Z (k + 1))%Q ->
  absFloor (q / inject_Z 12) = k / 12.
Proof.
  intros Hk H1 H2.
  assert (P12 : (0 < inject_Z 12)%Q) by reflexivity.
  assert (Q0 : (0 <= q)%Q).
  { eapply Qle_trans; [| exact H1]. change (inject_Z 0 <= inject_Z k)%Q. now rewrite <- Zle_Qle. }
  rewrite absFloor_nonneg.
  - apply Qfloor_eq.
    + apply Qle_shift_div_l; [exact P12|].
      eapply Qle_trans; [| exact H1].
      rewrite <- inject_Z_mult, <- Zle_Qle. zdiv.
    + apply Qlt_shift_div_r; [exact P12|].
      eapply Qlt_le_trans; [exact H2|].
      rewrite <- inject_Z_mult, <- Zle_Qle. zdiv.
  - apply Qle_shift_div_l; [exact P12|]. now rewrite Qmult_0_l.
Qed.

(** *** Setters and additions, on stamps *)

Lemma index_div_mod (k : Z) : 12 * (k / 12) + k mod 12 = k.
Proof. zdiv. Qed.

Lemma year_stamp (k d tod : Z) :
  1 <= d <= MonthLength k -> 0 <= tod < msPerDay -> year (stamp k d tod) = k / 12.
Proof. intros. now apply YearFromTime_stamp. Qed.

Lemma month_stamp (k d tod : Z) :
  1 <= d <= MonthLength k -> 0 <= tod < msPerDay -> month (stamp k d tod) = k mod 12.
Proof. intros. now apply MonthFromTime_stamp. Qed.

Lemma date_stamp (k d tod : Z) :
  1 <= d <= MonthLength k -> 0 <= tod < msPerDay -> date (stamp k d tod) = d.
Proof. intros. now apply DateFromTime_stamp. Qed.

Lemma set_date_stamp (k d tod d' : Z) :
  1 <= d <= MonthLength k -> 0 <= tod < msPerDay ->
  set_date (stamp k d tod) d' = stamp k d' tod.
Proof.
  intros Hd Ht. unfold set_date, setDate.
  rewrite YearFromTime_stamp, MonthFromTime_stamp, TimeWithinDay_stamp by assumption.
  rewrite MakeDay_index, index_div_mod. unfold stamp. reflexivity.
Qed.

Lemma first_of_month_ok (j : Z) : 1 <= 1 <= MonthLength j.
Proof. pose proof (MonthLength_range j). lia. Qed.

Lemma daysInMonth_stamp (k d tod : Z) :
  1 <= d <= MonthLength k -> 0 <= tod < msPerDay ->
  daysInMonth (stamp k d tod) = MonthLength k.
Proof.
  intros Hd Ht. unfold daysInMonth. now rewrite year_stamp, month_stamp.
Qed.

Lemma clamp_ok (d j : Z) : 1 <= d -> 1 <= clamp d j <= MonthLength j.
Proof. intros H. unfold clamp. pose proof (MonthLength_range j). lia. Qed.

Lemma set_month_stamp (k d tod j : Z) :
  1 <= d <= MonthLength k -> 0 <= tod < msPerDay ->
  set_month (stamp k d tod) j
  = stamp (12 * (k / 12) + j) (clamp d (12 * (k / 12) + j)) tod.
Proof.
  intros Hd Ht. unfold set_month. rewrite set_date_stamp by assumption.
  assert (F : setMonth (stamp k 1 tod) j = stamp (12 * (k / 12) + j) 1 tod).
  { unfold setMonth.
    rewrite YearFromTime_stamp, DateFromTime_stamp, TimeWithinDay_stamp
      by auto using first_of_month_ok.
    rewrite MakeDay_index. unfold stamp. reflexivity. }
  rewrite F, daysInMonth_stamp, date_stamp by auto using first_of_month_ok.
  now rewrite set_date_stamp by auto using first_of_month_ok.
Qed.

Lemma set_year_stamp (k d tod y : Z) :
  1 <= d <= MonthLength k -> 0 <= tod < msPerDay ->
  set_year (stamp k d tod) y
  = stamp (12 * y + k mod 12) (clamp d (12 * y + k mod 12)) tod.
Proof.
  intros Hd Ht. unfold set_year. rewrite set_date_stamp by assumption.
  assert (F : setFullYear (stamp k 1 tod) y = stamp (12 * y + k mod 12) 1 tod).
  { unfold setFullYear.
    rewrite MonthFromTime_stamp, DateFromTime_stamp, TimeWithinDay_stamp
      by auto using first_of_month_ok.
    rewrite MakeDay_index. unfold stamp. reflexivity. }
  rewrite F, daysInMonth_stamp, date_stamp by auto using first_of_month_ok.
  now rewrite set_date_stamp by auto using first_of_month_ok.
Qed.

Lemma add_month_stamp (k d tod n : Z) :
  1 <= d <= MonthLength k -> 0 <= tod < msPerDay ->
  add_month (stamp k d tod) n = stamp (k + n) (clamp d (k + n)) tod.
Proof.
  intros Hd Ht. unfold add_month.
  rewrite set_month_stamp, month_stamp by assumption.
  replace (12 * (k / 12) + (k mod 12 + n)) with (k + n) by zdiv. reflexivity.
Qed.

(** Adding days moves the instant by as many times 24 hours. *)
Lemma MakeDay_plus (y m d n : Z) : MakeDay y m (d + n) = MakeDay y m d + n.
Proof. unfold MakeDay. lia. Qed.

Lemma MakeDate_shift (d n tod : Z) :
  MakeDate (d + n) tod = MakeDate d tod + n * msPerDay.
Proof. unfold MakeDate. ring. Qed.

Lemma add_day_unfold (t n : Z) :
  add_day t n
  = MakeDate (MakeDay (YearFromTime t) (MonthFromTime t) (DateFromTime t + n))
             (TimeWithinDay t).
Proof. reflexivity. Qed.

Lemma add_day_plus (t n : Z) : add_day t n = t + n * msPerDay.
Proof.
  rewrite add_day_unfold, MakeDay_plus, MakeDate_shift, <- civil_unfold.
  now rewrite civil_getters.
Qed.

(** *** Differences in days *)

Lemma diff_day_floor (x y : Z) : y <= x -> diff_day x y = (x - y) / msPerDay.
Proof.
  intros H. unfold diff_day. apply absFloor_quotient; [lia | reflexivity].
Qed.

End DayjsFacts.

(** ** The month difference *)

Module MonthDiffFacts.
Import ES Calendar ESFacts CalFacts Dayjs DayjsFacts.

Lemma frac_bounds (num den : Z) :
  0 < den ->
  (- den < num -> (-1 < inject_Z num / inject_Z den)%Q) /\
  (num < den -> (inject_Z num / inject_Z den < 1)%Q) /\
  (num <= 0 -> (inject_Z num / inject_Z den <= 0)%Q) /\
  (0 <= num -> (0 <= inject_Z num / inject_Z den)%Q).
Proof.
  intros Hd.
  assert (D : (0 < inject_Z den)%Q)
    by (change 0%Q with (inject_Z 0); now rewrite <- Zlt_Qlt).
  repeat split; intros H.
  - apply Qlt_shift_div_l; [exact D|].
    change (-1)%Q with (inject_Z (-1)). rewrite <- inject_Z_mult, <- Zlt_Qlt. lia.
  - apply Qlt_shift_div_r; [exact D|].
    change 1%Q with (inject_Z 1). rewrite <- inject_Z_mult, <- Zlt_Qlt. lia.
  - apply Qle_shift_div_r; [exact D|].
    change 0%Q with (inject_Z 0). rewrite <- inject_Z_mult, <- Zle_Qle. lia.
  - apply Qle_shift_div_l; [exact D|].
    change 0%Q with (inject_Z 0). rewrite <- inject_Z_mult, <- Zle_Qle. lia.
Qed.

Lemma bracket_back (w : Z) (f : Q) :
  (-1 < f)%Q -> (f <= 0)%Q -> bracket (- (inject_Z w + f)) (- w).
Proof.
  intros. unfold bracket. rewrite inject_Z_plus, inject_Z_opp.
  change (inject_Z 1) with 1%Q. split; lra.
Qed.

Lemma bracket_back_swapped (w : Z) (f : Q) :
  (-1 < f)%Q -> (f < 0)%Q -> bracket (- - (inject_Z w + f)) (w - 1).
Proof.
  intros. unfold bracket. unfold Z.sub. rewrite !inject_Z_plus, inject_Z_opp.
  change (inject_Z 1) with 1%Q. split; lra.
Qed.

Lemma bracket_forth_swapped (w : Z) (f : Q) :
  (0 <= f)%Q -> (f < 1)%Q -> bracket (- - (inject_Z w + f)) w.
Proof.
  intros. unfold bracket. rewrite !inject_Z_plus.
  change (inject_Z 1) with 1%Q. split; lra.
Qed.

Section OnStamps.
(** [a] is an instant of day [ad] of month [ka]; [b] is midnight of day
    [bd] of month [kb]. *)
Variables ka ad atod kb bd : Z.
Hypothesis Had : 1 <= ad <= MonthLength ka.
Hypothesis Hat : 0 <= atod < msPerDay.
Hypothesis Hbd : 1 <= bd <= MonthLength kb.


Lemma midnight_ok : 0 <= 0 < msPerDay.
Proof. unfold msPerDay. lia. Qed.

Lemma wholeMonthDiff_stamps :
  (year (stamp kb bd 0) - year (stamp ka ad atod)) * 12
  + (month (stamp kb bd 0) - month (stamp ka ad atod)) = kb - ka.
Proof.
  rewrite !year_stamp, !month_stamp by auto using midnight_ok. zdiv.
Qed.

Lemma wholeMonthDiff_stamps_swapped :
  (year (stamp ka ad atod) - year (stamp kb bd 0)) * 12
  + (month (stamp ka ad atod) - month (stamp kb bd 0)) = ka - kb.
Proof.
  rewrite !year_stamp, !month_stamp by auto using midnight_ok. zdiv.
Qed.

(** The guard is false: the day of [a] is not before that of [b]. *)
Lemma monthDiff_body_bracket :
  bd <= ad ->
  bracket (monthDiff_body (stamp ka ad atod) (stamp kb bd 0)) (ka - kb).
Proof.
  intros Hle. unfold monthDiff_body.
  rewrite wholeMonthDiff_stamps.
  rewrite !add_month_stamp by assumption.
  replace (ka + (kb - ka)) with kb by lia.
  pose proof (clamp_ok ad kb (proj1 Had)) as Hc.
  assert (Hge : bd <= clamp ad kb) by (unfold clamp; lia).
  rewrite stamp_diff.
  replace (ka - kb) with (- (kb - ka)) by lia.
  destruct (Z.ltb_spec ((bd - clamp ad kb) * msPerDay + (0 - atod)) 0) as [C | C];
    cbv beta iota.
  - replace (ka + (kb - ka + -1)) with (kb - 1) by lia.
    pose proof (clamp_ok ad (kb - 1) (proj1 Had)) as Hc2.
    assert (L : stamp (kb - 1) (clamp ad (kb - 1)) atod < stamp kb bd 0)
      by (apply stamp_lt_month; auto using midnight_ok; lia).
    assert (L2 : stamp (kb - 1) (clamp ad (kb - 1)) atod
                 < stamp kb (clamp ad kb) atod)
      by (apply stamp_lt_month; auto; lia).
    pose proof (stamp_diff kb bd 0 (clamp ad kb) atod) as D.
    destruct (frac_bounds ((bd - clamp ad kb) * msPerDay + (0 - atod))
                (stamp kb (clamp ad kb) atod
                 - stamp (kb - 1) (clamp ad (kb - 1)) atod)) as (F1 & _ & F3 & _);
      [lia|].
    apply bracket_back; [apply F1 | apply F3]; lia.
  - assert (Z0 : (bd - clamp ad kb) * msPerDay + (0 - atod) = 0)
      by (unfold msPerDay in *; nia).
    rewrite Z0. apply bracket_back.
    + unfold Qdiv. rewrite Qmult_0_l. reflexivity.
    + unfold Qdiv. rewrite Qmult_0_l. apply Qle_refl.
Qed.

(** The guard is true: the body runs with the arguments exchanged, and
    the difference is the opposite of what it returns. *)
Lemma monthDiff_body_bracket_swapped :
  ad < bd ->
  bracket (- monthDiff_body (stamp kb bd 0) (stamp ka ad atod))
          (ka - kb - (if ad <? clamp bd ka then 1 else 0)).
Proof.
  intros Hlt. unfold monthDiff_body.
  rewrite wholeMonthDiff_stamps_swapped.
  rewrite !add_month_stamp by auto using midnight_ok.
  replace (kb + (ka - kb)) with ka by lia.
  pose proof (clamp_ok bd ka (proj1 Hbd)) as Hc.
  rewrite stamp_diff.
  destruct (Z.ltb_spec ((ad - clamp bd ka) * msPerDay + (atod - 0)) 0) as [C | C];
    cbv beta iota.
  - assert (Hd : ad < clamp bd ka) by (unfold msPerDay in *; nia).
    destruct (Z.ltb_spec ad (clamp bd ka)) as [_ | N]; [| lia].
    replace (kb + (ka - kb + -1)) with (ka - 1) by lia.
    pose proof (clamp_ok bd (ka - 1) (proj1 Hbd)) as Hc2.
    assert (L : stamp (ka - 1) (clamp bd (ka - 1)) 0 < stamp ka ad atod)
      by (apply stamp_lt_month; auto using midnight_ok; lia).
    assert (L2 : stamp (ka - 1) (clamp bd (ka - 1)) 0 < stamp ka (clamp bd ka) 0)
      by (apply stamp_lt_month; auto using midnight_ok; lia).
    pose proof (stamp_diff ka ad atod (clamp bd ka) 0) as D.
    destruct (frac_bounds ((ad - clamp bd ka) * msPerDay + (atod - 0))
                (stamp ka (clamp bd ka) 0
                 - stamp (ka - 1) (clamp bd (ka - 1)) 0)) as (F1 & _ & F3 & _);
      [lia|].
    apply bracket_back_swapped; [apply F1; lia |].
    apply Qlt_shift_div_r.
    + change 0%Q with (inject_Z 0). rewrite <- Zlt_Qlt. lia.
    + rewrite Qmult_0_l. change 0%Q with (inject_Z 0). now rewrite <- Zlt_Qlt.
  - assert (Hd : clamp bd ka <= ad) by (unfold msPerDay in *; nia).
    destruct (Z.ltb_spec ad (clamp bd ka)) as [N | _]; [lia |].
    replace (ka - kb - 0) with (ka - kb) by lia.
    replace (kb + (ka - kb + 1)) with (ka + 1) by lia.
    pose proof (clamp_ok bd (ka + 1) (proj1 Hbd)) as Hc2.
    assert (L : stamp ka ad atod < stamp (ka + 1) (clamp bd (ka + 1)) 0)
      by (apply stamp_lt_month; auto using midnight_ok; lia).
    assert (L2 : stamp ka (clamp bd ka) 0 < stamp (ka + 1) (clamp bd (ka + 1)) 0)
      by (apply stamp_lt_month; auto using midnight_ok; lia).
    pose proof (stamp_diff ka ad atod (clamp bd ka) 0) as D.
    destruct (frac_bounds ((ad - clamp bd ka) * msPerDay + (atod - 0))
                (stamp (ka + 1) (clamp bd (ka + 1)) 0
                 - stamp ka (clamp bd ka) 0)) as (_ & F2 & _ & F4);
      [lia|].
    apply bracket_forth_swapped; [apply F4 | apply F2]; lia.
Qed.

(** The month difference of an instant and a midnight is in the bracket
    of the number of months between them, one less when the day of the
    midnight, cut down to the month of the instant, is still to come. *)
Lemma monthDiff_bracket :
  bracket (monthDiff (stamp ka ad atod) (stamp kb bd 0))
          (ka - kb - (if ad <? clamp bd ka then 1 else 0)).
Proof.
  unfold monthDiff. rewrite !date_stamp by auto using midnight_ok.
  destruct (Z.ltb_spec ad bd) as [L | G].
  - now apply monthDiff_body_bracket_swapped.
  - assert (Hc : bd <= clamp bd ka \/ clamp bd ka <= ad)
      by (unfold clamp; lia).
    destruct (Z.ltb_spec ad (clamp bd ka)) as [N | _].
    + unfold clamp in N. lia.
    + replace (ka - kb - 0) with (ka - kb) by lia.
      now apply monthDiff_body_bracket.
Qed.

End OnStamps.

(** *** Differences in years *)

Lemma absFloor_below_one (q : Q) : (q < 1)%Q -> absFloor q <= 0.
Proof.
  intros H. unfold absFloor. destruct (Qle_bool 0 q) eqn:E; cbv beta iota delta [negb].
  - pose proof (Qfloor_le q) as F.
    assert (L : (inject_Z (Qfloor q) < inject_Z 1)%Q)
      by (eapply Qle_lt_trans; [exact F | exact H]).
    rewrite <- Zlt_Qlt in L. lia.
  - pose proof (Qceiling_lt q) as F.
    assert (L : (inject_Z (Qceiling q - 1) < inject_Z 1)%Q)
      by (eapply Qlt_trans; [exact F | exact H]).
    rewrite <- Zlt_Qlt in L.
    assert (N : ~ (0 <= q)%Q) by (rewrite <- Qle_bool_iff; congruence).
    apply Qnot_le_lt in N.
    assert (L0 : (inject_Z (Qceiling q - 1) < inject_Z 0)%Q)
      by (eapply Qlt_trans; [exact F | exact N]).
    rewrite <- Zlt_Qlt in L0. lia.
Qed.

Lemma diff_year_stamps (ka ad atod kb bd : Z) :
  1 <= ad <= MonthLength ka -> 0 <= atod < msPerDay ->
  1 <= bd <= MonthLength kb ->
  0 <= ka - kb - (if ad <? clamp bd ka then 1 else 0) ->
  diff_year (stamp ka ad atod) (stamp kb bd 0)
  = (ka - kb - (if ad <? clamp bd ka then 1 else 0)) / 12.
Proof.
  intros Had Hat Hbd HK. unfold diff_year.
  destruct (monthDiff_bracket ka ad atod kb bd Had Hat Hbd) as [B1 B2].
  now apply absFloor_twelfth.
Qed.

Lemma diff_year_stamps_nonpos (ka ad atod kb bd : Z) :
  1 <= ad <= MonthLength ka -> 0 <= atod < msPerDay ->
  1 <= bd <= MonthLength kb ->
  ka - kb - (if ad <? clamp bd ka then 1 else 0) <= 0 ->
  diff_year (stamp ka ad atod) (stamp kb bd 0) <= 0.
Proof.
  intros Had Hat Hbd HK. unfold diff_year.
  destruct (monthDiff_bracket ka ad atod kb bd Had Hat Hbd) as [B1 B2].
  apply absFloor_below_one.
  apply Qlt_shift_div_r; [reflexivity|].
  eapply Qlt_le_trans; [exact B2|].
  rewrite Qmult_1_l. change 12%Q with (inject_Z 12). rewrite <- Zle_Qle. lia.
Qed.

End MonthDiffFacts.

(** ** The birthday functions *)

Module CRMFacts.
Import ES Calendar ESFacts CalFacts Dayjs DayjsFacts MonthDiffFacts CRM Notions.

(** *** Instants and birthdays as stamps *)

Lemma stamp_view (t : Z) :
  exists k d tod,
    t = stamp k d tod /\ 1 <= d <= MonthLength k /\ 0 <= tod < msPerDay
    /\ k = 12 * year t + month t /\ d = date t.
Proof.
  exists (12 * YearFromTime t + MonthFromTime t), (DateFromTime t), (TimeWithinDay t).
  pose proof (valid_date_getters t) as [Hm Hd].
  repeat split; try apply TimeWithinDay_range; try tauto.
  - symmetry. apply stamp_getters.
  - now rewrite MonthLength_index.
Qed.

Lemma dayjs_unfold (s : DateText) :
  dayjs s
  = MakeDate (MakeDay (if (0 <=? text_year s) && (text_year s <=? 99)
                       then 1900 + text_year s else text_year s)
                      (text_month s - 1) (text_day s)) 0.
Proof. reflexivity. Qed.

Lemma dayjs_midnight (s : DateText) : TimeWithinDay (dayjs s) = 0.
Proof.
  rewrite dayjs_unfold. apply TimeWithinDay_MakeDate, midnight_ok.
Qed.

(** Every text of three numbers is read as the midnight of some day. *)
Lemma birthday_view (s : DateText) :
  exists k d,
    dayjs s = stamp k d 0 /\ 1 <= d <= MonthLength k
    /\ k = 12 * year (dayjs s) + month (dayjs s) /\ d = date (dayjs s).
Proof.
  destruct (stamp_view (dayjs s)) as (k & d & tod & E & Hd & Ht & Hk & Hdd).
  exists k, d. repeat split; try tauto.
  assert (T0 : tod = 0).
  { rewrite <- (dayjs_midnight s). rewrite E at 1.
    symmetry. now apply TimeWithinDay_stamp. }
  now rewrite <- T0.
Qed.

Lemma well_formed_inv (s : DateText) :
  well_formed s = true ->
  100 <= text_year s <= 9999 /\ 1 <= text_month s <= 12
  /\ 1 <= text_day s <= DaysInMonth (text_year s) (text_month s - 1).
Proof.
  unfold well_formed. rewrite !andb_true_iff, !Z.leb_le. lia.
Qed.

Lemma dayjs_well_formed (s : DateText) :
  well_formed s = true ->
  dayjs s = stamp (12 * text_year s + (text_month s - 1)) (text_day s) 0
  /\ 1 <= text_day s <= MonthLength (12 * text_year s + (text_month s - 1)).
Proof.
  intros W. apply well_formed_inv in W. destruct W as (Hy & Hm & Hd).
  rewrite dayjs_unfold.
  destruct (Z.leb_spec 0 (text_year s)), (Z.leb_spec (text_year s) 99);
    cbv beta iota delta [andb]; try lia.
  rewrite MakeDay_index, MonthLength_index by lia. unfold stamp. now split.
Qed.

(** *** The occurrences of a birthday *)

Lemma FirstOfMonth_year (k : Z) :
  365 <= FirstOfMonth (k + 12) - FirstOfMonth k <= 366.
Proof.
  unfold FirstOfMonth, MakeDay. rewrite !Z.add_0_l.
  replace ((k + 12) / 12) with (k / 12 + 1) by zdiv.
  replace ((k + 12) mod 12) with (k mod 12) by zdiv.
  rewrite DayFromYear_succ, DaysInYear_LeapDays.
  assert (Hm : 0 <= k mod 12 < 12) by zdiv.
  destruct (LeapDays_cases (k / 12)) as [L | L],
           (LeapDays_cases (k / 12 + 1)) as [L' | L'];
    rewrite L, L'; unfold MonthStart; zb.
Qed.

Lemma FirstOfMonth_far (k : Z) :
  FirstOfMonth k + MonthLength k + 56 <= FirstOfMonth (k + 12).
Proof.
  pose proof (FirstOfMonth_lt (k + 2) (k + 12)) as L.
  pose proof (FirstOfMonth_succ k) as S1.
  pose proof (FirstOfMonth_succ (k + 1)) as S2.
  replace (k + 1 + 1) with (k + 2) in S2 by lia.
  pose proof (MonthLength_range (k + 1)). pose proof (MonthLength_range (k + 2)).
  lia.
Qed.

Section Occurrences.
(** The birthday is midnight of day [bd] of month [kb]; [today] is an
    instant of day [td] of month [kt]. *)
Variables kb bd kt td tod : Z.
Hypothesis Hbd : 1 <= bd <= MonthLength kb.
Hypothesis Htd : 1 <= td <= MonthLength kt.
Hypothesis Htod : 0 <= tod < msPerDay.

Lemma thisYearBirthday_stamp :
  set_year (stamp kb bd 0) (year (stamp kt td tod))
  = stamp (this_month kt kb) (clamp bd (this_month kt kb)) 0.
Proof.
  rewrite year_stamp by assumption.
  now rewrite set_year_stamp by auto using midnight_ok.
Qed.

Lemma nextYearBirthday_stamp :
  set_year (stamp kb bd 0) (year (stamp kt td tod) + 1)
  = stamp ((this_month kt kb) + 12) (clamp bd ((this_month kt kb) + 12)) 0.
Proof.
  rewrite year_stamp by assumption.
  rewrite set_year_stamp by auto using midnight_ok.
  replace (12 * (kt / 12 + 1) + kb mod 12) with ((this_month kt kb) + 12)
    by (unfold this_month; lia).
  reflexivity.
Qed.

Lemma today_before_nextYearBirthday :
  stamp kt td tod < stamp ((this_month kt kb) + 12) (clamp bd ((this_month kt kb) + 12)) 0.
Proof.
  pose proof (clamp_ok bd ((this_month kt kb) + 12) (proj1 Hbd)).
  apply stamp_lt_month; auto using midnight_ok; try lia.
  unfold this_month. zdiv.
Qed.

Lemma nextYearBirthday_far :
  stamp (this_month kt kb) (clamp bd (this_month kt kb)) 0 + 57 * msPerDay
  <= stamp ((this_month kt kb) + 12) (clamp bd ((this_month kt kb) + 12)) 0.
Proof.
  pose proof (clamp_ok bd (this_month kt kb) (proj1 Hbd)).
  pose proof (clamp_ok bd ((this_month kt kb) + 12) (proj1 Hbd)).
  pose proof (FirstOfMonth_far (this_month kt kb)).
  unfold stamp, MakeDate, msPerDay. lia.
Qed.

End Occurrences.

(** The two occurrences the component computes, for any birthday text
    and any instant. *)
Lemma occurrences_view (s : DateText) (t : Z) :
  exists T N,
    set_year (dayjs s) (year t) = T /\ set_year (dayjs s) (year t + 1) = N
    /\ t < N /\ T + 57 * msPerDay <= N.
Proof.
  destruct (birthday_view s) as (kb & bd & Eb & Hbd & _).
  destruct (stamp_view t) as (kt & td & tod & Et & Htd & Htod & _).
  rewrite Eb, Et.
  rewrite thisYearBirthday_stamp, nextYearBirthday_stamp by assumption.
  eexists; eexists; repeat split.
  - now apply today_before_nextYearBirthday.
  - now apply nextYearBirthday_far.
Qed.

Lemma getDaysUntilBirthday_unfold (s : DateText) (t : Z) :
  getDaysUntilBirthday s t
  = if t <? set_year (dayjs s) (year t)
    then diff_day (set_year (dayjs s) (year t)) t
    else diff_day (set_year (dayjs s) (year t + 1)) t.
Proof. reflexivity. Qed.

Lemma getDaysUntilBirthday_nextOccurrence (s : DateText) (t : Z) :
  getDaysUntilBirthday s t = diff_day (nextOccurrence s t) t.
Proof.
  rewrite getDaysUntilBirthday_unfold. unfold nextOccurrence, isAfter.
  now destruct (t <? set_year (dayjs s) (year t)).
Qed.

Lemma days_lt_iff (x t n : Z) :
  t <= x -> ((x - t) / msPerDay < n <-> x < t + n * msPerDay).
Proof. intros H. unfold msPerDay. zdiv. Qed.

(** The test of the filter, read on the day count. *)
Lemma upcoming_test (s : DateText) (t : Z) :
  let thisYearBirthday := set_year (dayjs s) (year t) in
  let nextYearBirthday := set_year (dayjs s) (year t + 1) in
  let nextMonth := add_day t 30 in
  (isAfter thisYearBirthday t && isBefore thisYearBirthday nextMonth)
  || (isAfter nextYearBirthday t && isBefore nextYearBirthday nextMonth)
  = (0 <=? getDaysUntilBirthday s t) && (getDaysUntilBirthday s t <? 30).
Proof.
  cbv zeta. rewrite getDaysUntilBirthday_unfold, add_day_plus.
  destruct (occurrences_view s t) as (T & N & -> & -> & HN & Hfar).
  unfold isAfter, isBefore.
  destruct (Z.ltb_spec t T) as [A | A].
  - rewrite diff_day_floor by lia.
    pose proof (days_lt_iff T t 30 ltac:(lia)) as D.
    assert (P : 0 <= (T - t) / msPerDay) by (unfold msPerDay; zdiv).
    unfold msPerDay in *. zb.
  - rewrite diff_day_floor by lia.
    pose proof (days_lt_iff N t 30 ltac:(lia)) as D.
    assert (P : 0 <= (N - t) / msPerDay) by (unfold msPerDay; zdiv).
    unfold msPerDay in *. zb.
Qed.

Lemma upcoming_window (people : list Person) (today : Z) :
  getUpcomingBirthdays people today
  = filter (fun p => (0 <=? getDaysUntilBirthday (birthday p) today)
                     && (getDaysUntilBirthday (birthday p) today <? 30)) people.
Proof.
  unfold getUpcomingBirthdays. apply filter_ext. intros p.
  apply (upcoming_test (birthday p) today).
Qed.

Lemma filter_Subseq {A : Type} (f : A -> bool) (l : list A) :
  Subseq (filter f l) l.
Proof.
  induction l as [| x l IH]; simpl.
  - constructor.
  - destruct (f x); now constructor.
Qed.

(** *** Ages *)

Lemma month_range (t : Z) : 0 <= month t <= 11.
Proof. apply MonthOfYearDay_range. Qed.

(** The age at an instant of day [td] of month [kt], for a birthday on
    day [bd] of month [kb] that is not after the instant. *)
Lemma calculateAge_stamps (s : DateText) (kt td tod : Z) :
  well_formed s = true ->
  1 <= td <= MonthLength kt -> 0 <= tod < msPerDay ->
  dayjs s <= stamp kt td tod ->
  let kb := 12 * text_year s + (text_month s - 1) in
  calculateAge s (stamp kt td tod)
  = (kt - kb - (if td <? clamp (text_day s) kt then 1 else 0)) / 12.
Proof.
  intros W Htd Htod Hle kb.
  destruct (dayjs_well_formed s W) as [Eb Hbd]. fold kb in Eb, Hbd.
  unfold calculateAge. rewrite Eb in *.
  apply diff_year_stamps; try assumption.
  pose proof (stamp_le_inv kb (text_day s) 0 kt td tod Hle) as Hk.
  destruct (Z.eq_dec kb kt) as [E | N].
  - rewrite E in *. unfold clamp.
    assert (text_day s <= td).
    { destruct (Z_le_gt_dec (text_day s) td) as [L | G]; [exact L|].
      unfold stamp, MakeDate, msPerDay in *. lia. }
    zb.
  - assert (kb <= kt) by (apply Hk; auto using midnight_ok; lia). zb.
Qed.

Lemma calculateAge_completed (s : DateText) (t : Z) :
  well_formed s = true -> dayjs s <= t ->
  calculateAge s t = completed_birthdays_clamped s t.
Proof.
  intros W Hle.
  destruct (stamp_view t) as (kt & td & tod & Et & Htd & Htod & Hk & Hd).
  rewrite Et in Hle. rewrite Et at 1.
  rewrite calculateAge_stamps by assumption.
  unfold completed_birthdays_clamped, precedes, clamp.
  rewrite <- Hd.
  pose proof (month_range t) as Hm.
  apply well_formed_inv in W. destruct W as (Hy & Hbm & Hbd).
  destruct (Z.eq_dec (month t + 1) (text_month s)) as [E | N].
  - assert (EL : MonthLength kt = DaysInMonth (year t) (text_month s - 1)).
    { rewrite Hk, MonthLength_index by assumption. f_equal. lia. }
    rewrite EL. subst kt.
    set (c := Z.min (text_day s) (DaysInMonth (year t) (text_month s - 1))).
    zb; zdiv.
  - subst kt.
    set (c := Z.min (text_day s) (DaysInMonth (year t) (text_month s - 1))).
    set (c' := Z.min (text_day s) (MonthLength (12 * year t + month t))).
    zb; zdiv.
Qed.

Lemma calculateAge_future (s : DateText) (t : Z) :
  well_formed s = true -> t < dayjs s -> calculateAge s t <= 0.
Proof.
  intros W Hlt.
  destruct (stamp_view t) as (kt & td & tod & Et & Htd & Htod & _).
  destruct (dayjs_well_formed s W) as [Eb Hbd].
  unfold calculateAge. rewrite Eb in *. subst t.
  apply diff_year_stamps_nonpos; try assumption.
  assert (kt <= 12 * text_year s + (text_month s - 1))
    by (apply (stamp_le_inv kt td tod _ (text_day s) 0);
        auto using midnight_ok; lia).
  zb.
Qed.

(** A text is read as the date it rolls over to. *)
Lemma dayjs_text_of (b : Z) :
  TimeWithinDay b = 0 -> 100 <= year b -> dayjs (text_of b) = b.
Proof.
  intros H0 Hy. rewrite dayjs_unfold. unfold text_of.
  cbv beta iota delta [text_year text_month text_day].
  destruct (Z.leb_spec 0 (year b)), (Z.leb_spec (year b) 99);
    cbv beta iota delta [andb]; try lia.
  replace (month b + 1 - 1) with (month b) by lia.
  rewrite <- H0, <- civil_unfold. apply civil_getters.
Qed.

Lemma well_formed_text_of (b : Z) :
  100 <= year b <= 9999 -> well_formed (text_of b) = true.
Proof.
  intros Hy. unfold well_formed, text_of.
  cbv beta iota delta [text_year text_month text_day].
  pose proof (month_range b). pose proof (DateFromTime_range b) as D.
  replace (month b + 1 - 1) with (month b) by lia.
  rewrite !andb_true_iff, !Z.leb_le. unfold year, month, date, getFullYear,
    getMonth, getDate in *. lia.
Qed.

(** *** Instants against midnights *)

Lemma stamp_lt_midnight_iff (k d tod k' d' : Z) :
  1 <= d <= MonthLength k -> 0 <= tod < msPerDay -> 1 <= d' <= MonthLength k' ->
  (stamp k d tod < stamp k' d' 0 <-> k < k' \/ (k = k' /\ d < d')).
Proof.
  intros Hd Ht Hd'. split.
  - intros H.
    assert (k <= k')
      by (apply (stamp_le_inv k d tod k' d' 0); auto using midnight_ok; lia).
    destruct (Z.eq_dec k k') as [E | N]; [right | left; lia].
    split; [exact E|]. subst k'. unfold stamp, MakeDate, msPerDay in *. lia.
  - intros [H | [E H]].
    + apply stamp_lt_month; auto using midnight_ok; lia.
    + subst k'. unfold stamp, MakeDate, msPerDay in *. lia.
Qed.

(** *** The day of the birthday *)

Lemma year_later_same_day (k d : Z) :
  1 <= d <= MonthLength k ->
  365 <= FirstOfMonth (k + 12) + clamp d (k + 12) - (FirstOfMonth k + d) <= 366.
Proof.
  unfold FirstOfMonth, MakeDay, clamp, MonthLength, DaysInMonth.
  rewrite !Z.add_0_l.
  replace ((k + 12) / 12) with (k / 12 + 1) by zdiv.
  replace ((k + 12) mod 12) with (k mod 12) by zdiv.
  rewrite DayFromYear_succ, DaysInYear_LeapDays.
  assert (Hm : 0 <= k mod 12 < 12) by zdiv.
  assert (Hl : LeapDays (k / 12) = 1 -> LeapDays (k / 12 + 1) = 0).
  { unfold LeapDays, DaysInYear. intros H.
    assert ((k / 12) mod 4 = 0) by zb.
    assert ((k / 12 + 1) mod 4 <> 0) by zdiv. zb. }
  destruct (LeapDays_cases (k / 12)) as [L | L],
           (LeapDays_cases (k / 12 + 1)) as [L' | L'];
    rewrite ?L, ?L' in *; try lia; unfold MonthStart; intros Hd; zb.
Qed.

(** On the day of the birthday the occurrence of the year is not after
    the instant of the call, and the days are counted to the occurrence
    of the year after. *)
Lemma birthday_today (s : DateText) (t : Z) :
  well_formed s = true ->
  month t + 1 = text_month s -> date t = text_day s ->
  nextOccurrence s t = set_year (dayjs s) (year t + 1)
  /\ 364 <= getDaysUntilBirthday s t <= 366.
Proof.
  intros W Hm Hd.
  destruct (stamp_view t) as (kt & td & tod & Et & Htd & Htod & Hk & Hdd).
  destruct (dayjs_well_formed s W) as [Eb Hbd].
  assert (E : this_month kt (12 * text_year s + (text_month s - 1)) = kt)
    by (unfold this_month; pose proof (month_range t); zdiv).
  assert (Ec : text_day s = td) by lia.
  clear Hm Hd Hk Hdd. subst t.
  rewrite getDaysUntilBirthday_nextOccurrence. unfold nextOccurrence, isAfter.
  rewrite Eb, thisYearBirthday_stamp, nextYearBirthday_stamp by assumption.
  rewrite E, Ec in *.
  replace (clamp td kt) with td by (unfold clamp; lia).
  pose proof (today_before_nextYearBirthday
                (12 * text_year s + (text_month s - 1)) td
                kt td tod Hbd Htd Htod) as HN.
  rewrite E in HN.
  destruct (Z.ltb_spec (stamp kt td tod) (stamp kt td 0)) as [A | A].
  - unfold stamp, MakeDate in A. lia.
  - split; [reflexivity|].
    rewrite diff_day_floor by lia.
    pose proof (year_later_same_day kt td Htd) as Y.
    unfold stamp, MakeDate, msPerDay in *. zdiv.
Qed.

End CRMFacts.

(** ** The actions on the list *)

Module ActionsFacts.
Import CRM.

Section Runs.
Variable Remote : Type.
Variable Person_list : Remote -> Completion ListResponse * Remote.

(** What [loadPeople] leaves behind, by the answer of the store. *)
Lemma loadPeople_run (w : World Remote) :
  loadPeople Remote Person_list w
  = match Person_list (remote w) with
    | (Normal response, r) =>
        (Normal tt,
         mkWorld (if success response then data response else people w)
                 false (modalVisible w) (editingPerson w)
                 (console w) (requests w ++ [ReqList]) r)
    | (Throw e, r) =>
        (Normal tt,
         mkWorld (people w) false (modalVisible w) (editingPerson w)
                 (console w ++ [Error "Failed to load people:" e])
                 (requests w ++ [ReqList]) r)
    end.
Proof.
  unfold loadPeople, bind, try_catch, setLoading, Person_list_call.
  cbn [people loading modalVisible editingPerson console requests remote].
  destruct (Person_list (remote w)) as [[response | e] r].
  - destruct (success response); reflexivity.
  - reflexivity.
Qed.

Lemma handleDelete_run (id : string) (w : World Remote) :
  handleDelete Remote Person_list id w
  = loadPeople Remote Person_list
      (mkWorld (people w) (loading w) (modalVisible w) (editingPerson w)
         (console w
          ++ [Log "Delete functionality would be implemented here for ID:" id])
         (requests w) (remote w)).
Proof.
  unfold handleDelete, try_catch, bind, console_write.
  rewrite !loadPeople_run.
  cbn [people loading modalVisible editingPerson console requests remote].
  destruct (Person_list (remote w)) as [[response | e] r]; reflexivity.
Qed.

End Runs.

End ActionsFacts.

(** ** The functions over any text *)

Module TextsFacts.
Import ES Dayjs CRM Notions CRMFacts Texts.

(** On texts of digits the functions are those of the component. *)
Lemma getDaysUntilBirthday_text_Digits (s : DateText) (today : Z) :
  getDaysUntilBirthday_text (Digits s) today = Num (getDaysUntilBirthday s today).
Proof.
  unfold getDaysUntilBirthday_text, getDaysUntilBirthday.
  cbn [dayjs_text set_year_object isAfter_object diff_day_object].
  now destruct (isAfter (set_year (dayjs s) (year today)) today).
Qed.

Lemma calculateAge_text_Digits (n : JsNumber) (s : DateText) (today : Z) :
  calculateAge_text n (Digits s) today = Num (calculateAge s today).
Proof. reflexivity. Qed.

Lemma getUpcomingBirthdays_text_Digits (people : list Person) (today : Z) :
  getUpcomingBirthdays_text (fun p => Digits (birthday p)) people today
  = getUpcomingBirthdays people today.
Proof. reflexivity. Qed.

(** A person whose birthday is not a date is never in the list. *)
Lemma NotADate_not_upcoming {A : Type} (birthday_text : A -> BirthdayText)
    (people : list A) (today : Z) (p : A) :
  birthday_text p = NotADate ->
  ~ In p (getUpcomingBirthdays_text birthday_text people today).
Proof.
  intros E Hin. unfold getUpcomingBirthdays_text in Hin.
  apply filter_In in Hin. destruct Hin as [_ Hin].
  rewrite E in Hin. cbn in Hin. discriminate.
Qed.

End TextsFacts.

(** ** The statements about the component *)

Module Claims.
Import ES Calendar ESFacts CalFacts Dayjs DayjsFacts MonthDiffFacts.
Import CRM Notions CRMFacts ActionsFacts.

Ltac by_eval := vm_compute; first [reflexivity | intro; discriminate].
Ltac conjuncts := repeat match goal with |- _ /\ _ => split end.

(** C1. On 2024-03-15, for the birthday 1985-03-15, the days are counted
    to 2025-03-15: [getDaysUntilBirthday] is 365 at midnight and 364 at
    any later time of the day tried here, never 0. *)
Theorem C1_birthday_today_is_not_zero :
  getDaysUntilBirthday (mkDateText 1985 3 15) (local_time 2024 3 15 0 0) = 365
  /\ getDaysUntilBirthday (mkDateText 1985 3 15) (local_time 2024 3 15 12 0) = 364
  /\ nextOccurrence (mkDateText 1985 3 15) (local_time 2024 3 15 12 0)
     = local_time 2025 3 15 0 0
  /\ getDaysUntilBirthday (mkDateText 1985 3 15) (local_time 2024 3 14 12 0) = 0.
Proof. cbv zeta. conjuncts; by_eval. Qed.

(** C2, as the claim has it, fails: a person whose day count is exactly
    30 is not in the list, although 30 is in the range from 0 to 30. *)
Lemma C2_counterexample :
  let p := person_born "1" 1990 4 14 in
  let today := local_time 2024 3 15 0 0 in
  getDaysUntilBirthday (birthday p) today = 30
  /\ getUpcomingBirthdays [p] today = []
  /\ getUpcomingBirthdays [p] today
     <> filter (fun q => (0 <=? getDaysUntilBirthday (birthday q) today)
                        && (getDaysUntilBirthday (birthday q) today <=? 30)) [p].
Proof. cbv zeta. conjuncts; by_eval. Qed.

(** C2, amended. The list of upcoming birthdays is the list of people,
    in their order, whose day count is at least 0 and less than 30: the
    occurrence counted to is after the instant of the call and before
    the instant 30 days later. *)
Theorem C2_upcoming_is_window_below_30 (people : list Person) (today : Z) :
  getUpcomingBirthdays people today
  = filter (fun p => (0 <=? getDaysUntilBirthday (birthday p) today)
                     && (getDaysUntilBirthday (birthday p) today <? 30)) people.
Proof. apply upcoming_window. Qed.

(** C3, as the claim has it, fails: the text 2023-02-30 names no day of
    the calendar and the birthday 2030-01-01 is later than the instant,
    yet both calls return a number and no error. *)
Lemma C3_counterexample :
  well_formed (mkDateText 2023 2 30) = false
  /\ call_calculateAge (mkDateText 2023 2 30) (local_time 2024 3 2 0 0) = Normal 1
  /\ call_calculateAge (mkDateText 2023 2 30) (local_time 2024 3 2 0 0)
     <> Throw InvalidDateError
  /\ call_getDaysUntilBirthday (mkDateText 2023 2 30) (local_time 2024 3 1 0 0)
     = Normal 1
  /\ local_time 2024 3 15 0 0 < dayjs (mkDateText 2030 1 1)
  /\ call_calculateAge (mkDateText 2030 1 1) (local_time 2024 3 15 0 0)
     = Normal (-5).
Proof. cbv zeta. conjuncts; by_eval. Qed.

(** C3, amended. No call raises an error, whatever the text.  A text of
    three groups of digits whose month or day is out of range is read as
    the date it rolls over to: the age, the day count and the place in
    the list of upcoming birthdays are those of that date; for a birthday
    later than the instant the age is a number that is zero or negative.
    For a text that is not a date the day count is NaN, the person is
    never in the list, and the age is what the library's difference in
    years gives against an Invalid Date. *)
Theorem C3_no_error_texts_roll_over
    (diff_year_invalid : Texts.JsNumber) (s : DateText) (today : Z) :
  100 <= year (dayjs s) <= 9999 ->
  let rolled := text_of (dayjs s) in
  well_formed rolled = true
  /\ call_calculateAge s today = Normal (calculateAge rolled today)
  /\ Texts.call_calculateAge_text diff_year_invalid (Texts.Digits s) today
     = Normal (Texts.Num (calculateAge rolled today))
  /\ call_getDaysUntilBirthday s today
     = Normal (getDaysUntilBirthday rolled today)
  /\ Texts.call_getDaysUntilBirthday_text (Texts.Digits s) today
     = Normal (Texts.Num (getDaysUntilBirthday rolled today))
  /\ (forall (people : list Person) (p : Person),
        birthday p = s ->
        call_getUpcomingBirthdays people today
        = Texts.call_getUpcomingBirthdays_text
            (fun q => Texts.Digits (birthday q)) people today
        /\ exists listed,
             call_getUpcomingBirthdays people today = Normal listed
             /\ (In p listed <->
                 In p people /\ 0 <= getDaysUntilBirthday rolled today < 30))
  /\ (today < dayjs s -> calculateAge s today <= 0)
  /\ Texts.call_calculateAge_text diff_year_invalid Texts.NotADate today
     = Normal diff_year_invalid
  /\ Texts.call_getDaysUntilBirthday_text Texts.NotADate today
     = Normal Texts.NaN
  /\ (forall (A : Type) (birthday_text : A -> Texts.BirthdayText)
             (people : list A) (p : A),
        birthday_text p = Texts.NotADate ->
        exists listed,
          Texts.call_getUpcomingBirthdays_text birthday_text people today
          = Normal listed
          /\ ~ In p listed).
Proof.
  intros Hy rolled.
  pose proof (well_formed_text_of (dayjs s) Hy) as W.
  pose proof (dayjs_text_of (dayjs s) (dayjs_midnight s) (proj1 Hy)) as E.
  fold rolled in W, E.
  assert (Ea : calculateAge s today = calculateAge rolled today)
    by (unfold calculateAge; now rewrite E).
  assert (Ed : getDaysUntilBirthday s today = getDaysUntilBirthday rolled today)
    by (unfold getDaysUntilBirthday; now rewrite E).
  conjuncts.
  - exact W.
  - unfold call_calculateAge. now rewrite Ea.
  - unfold Texts.call_calculateAge_text.
    now rewrite TextsFacts.calculateAge_text_Digits, Ea.
  - unfold call_getDaysUntilBirthday. now rewrite Ed.
  - unfold Texts.call_getDaysUntilBirthday_text.
    now rewrite TextsFacts.getDaysUntilBirthday_text_Digits, Ed.
  - intros people p Hp. split.
    { unfold Texts.call_getUpcomingBirthdays_text.
      now rewrite TextsFacts.getUpcomingBirthdays_text_Digits. }
    exists (getUpcomingBirthdays people today). split; [reflexivity |].
    rewrite upcoming_window, filter_In, andb_true_iff, Z.leb_le, Z.ltb_lt.
    rewrite Hp, Ed. tauto.
  - intros Hlt. rewrite Ea.
    apply calculateAge_future; [exact W | now rewrite E].
  - reflexivity.
  - reflexivity.
  - intros A birthday_text people p Hp.
    exists (Texts.getUpcomingBirthdays_text birthday_text people today).
    split; [reflexivity |]. now apply TextsFacts.NotADate_not_upcoming.
Qed.

Lemma C3_witness :
  let rolling := mkDateText 2023 2 30 in
  let later := mkDateText 2030 1 1 in
  let today := local_time 2024 3 15 0 0 in
  (100 <= year (dayjs rolling) <= 9999
   /\ text_of (dayjs rolling) = mkDateText 2023 3 2
   /\ call_calculateAge rolling today
      = Normal (calculateAge (mkDateText 2023 3 2) today)
   /\ call_getDaysUntilBirthday rolling today
      = Normal (getDaysUntilBirthday (mkDateText 2023 3 2) today))
  /\ (100 <= year (dayjs later) <= 9999
      /\ today < dayjs later
      /\ calculateAge later today <= 0).
Proof.
  intros rolling later today. split.
  - assert (Hy : 100 <= year (dayjs rolling) <= 9999) by (split; by_eval).
    assert (Er : text_of (dayjs rolling) = mkDateText 2023 3 2) by by_eval.
    destruct (C3_no_error_texts_roll_over Texts.NaN rolling today Hy)
      as (_ & H2 & _ & H4 & _).
    rewrite Er in H2, H4.
    split; [exact Hy |]. split; [exact Er |]. split; [exact H2 | exact H4].
  - assert (Hy : 100 <= year (dayjs later) <= 9999) by (split; by_eval).
    assert (Hl : today < dayjs later) by by_eval.
    destruct (C3_no_error_texts_roll_over Texts.NaN later today Hy)
      as (_ & _ & _ & _ & _ & _ & H7 & _).
    split; [exact Hy |]. split; [exact Hl | exact (H7 Hl)].
Defined.

(** C4. For a birthday on 29 February and an instant in a year that is
    not a leap year, the occurrence of that year is 28 February, midnight:
    the day count and the test of the filter are taken against this
    occurrence (or, once it is not after the instant, against the one of
    the year after), and the age goes up by one at that same midnight. *)
Theorem C4_leap_day_is_28_february (s : DateText) (today : Z) :
  well_formed s = true -> text_month s = 2 -> text_day s = 29 ->
  text_year s < year today -> LeapDays (year today) = 0 ->
  let occurrence := civil (year today) 1 28 0 in
  let following := set_year (dayjs s) (year today + 1) in
  set_year (dayjs s) (year today) = occurrence
  /\ getDaysUntilBirthday s today
     = (if today <? occurrence then diff_day occurrence today
        else diff_day following today)
  /\ (forall people p, birthday p = s ->
        (In p (getUpcomingBirthdays people today) <->
         In p people
         /\ (today < occurrence < today + 30 * msPerDay
             \/ today < following < today + 30 * msPerDay)))
  /\ calculateAge s today
     = year today - text_year s - (if today <? occurrence then 1 else 0).
Proof.
  intros W Hm Hd Hy HL occurrence following.
  destruct (dayjs_well_formed s W) as [Eb Hbd].
  destruct (stamp_view today) as (kt & td & tod & Et & Htd & Htod & Hk & Hdd).
  pose proof (month_range today) as Hmt.
  assert (Hocc : set_year (dayjs s) (year today) = occurrence).
  { unfold occurrence. rewrite Eb, set_year_stamp by auto using midnight_ok.
    rewrite civil_stamp.
    replace ((12 * text_year s + (text_month s - 1)) mod 12) with 1 by zdiv.
    f_equal. unfold clamp.
    rewrite MonthLength_index by lia. unfold DaysInMonth.
    rewrite HL, Hd. reflexivity. }
  split; [exact Hocc|]. split; [| split].
  - rewrite getDaysUntilBirthday_unfold, Hocc. reflexivity.
  - intros people p Hp. unfold getUpcomingBirthdays.
    rewrite filter_In, Hp. fold following. rewrite Hocc, add_day_plus.
    unfold isAfter, isBefore.
    rewrite orb_true_iff, !andb_true_iff, !Z.ltb_lt. tauto.
  - assert (Hle : dayjs s <= today).
    { rewrite Eb, Et.
      assert (12 * text_year s + (text_month s - 1) < kt) by lia.
      apply Z.lt_le_incl, stamp_lt_month; auto using midnight_ok; lia. }
    rewrite (calculateAge_completed s today W Hle).
    unfold completed_birthdays_clamped, precedes.
    rewrite Hm, Hd. replace (2 - 1) with 1 by lia.
    unfold DaysInMonth at 1. rewrite HL.
    replace (Z.min 29 (if 1 =? 1 then 28 + 0 else
      if (1 =? 3) || (1 =? 5) || (1 =? 8) || (1 =? 10) then 30 else 31))
      with 28 by reflexivity.
    assert (Hiff : today < occurrence
                   <-> month today + 1 < 2
                       \/ (month today + 1 = 2 /\ date today < 28)).
    { unfold occurrence. rewrite civil_stamp. rewrite Et at 1.
      rewrite stamp_lt_midnight_iff; try assumption.
      - lia.
      - rewrite MonthLength_index by lia. unfold DaysInMonth.
        rewrite HL. cbn. lia. }
    destruct (Z.ltb_spec today occurrence) as [A | A]; zb.
Qed.

Lemma C4_witness :
  let s := mkDateText 2000 2 29 in
  let today := local_time 2023 3 1 0 0 in
  set_year (dayjs s) (year today) = local_time 2023 2 28 0 0
  /\ getDaysUntilBirthday s today = 365
  /\ calculateAge s today = 23.
Proof.
  intros s today.
  destruct (C4_leap_day_is_28_february s today) as (H1 & H2 & _ & H4);
    try by_eval.
  split; [| split].
  - rewrite H1. by_eval.
  - rewrite H2. by_eval.
  - rewrite H4. by_eval.
Defined.

(** C5. With the birthday 1990-01-05 and 2024-12-20 as the day of the
    call, the person is in the list of upcoming birthdays; the day count
    is 16 at midnight and 15 at noon. *)
Theorem C5_year_boundary :
  let p := person_born "1" 1990 1 5 in
  getUpcomingBirthdays [p] (local_time 2024 12 20 0 0) = [p]
  /\ getUpcomingBirthdays [p] (local_time 2024 12 20 12 0) = [p]
  /\ getDaysUntilBirthday (birthday p) (local_time 2024 12 20 0 0) = 16
  /\ getDaysUntilBirthday (birthday p) (local_time 2024 12 20 12 0) = 15.
Proof. cbv zeta. conjuncts; by_eval. Qed.

(** C6. With the birthday 1985-03-15 and 2024-03-16 as the day of the
    call, the days are counted to 2025-03-15; the count is 364 at
    midnight and 363 at noon. *)
Theorem C6_just_passed :
  let s := mkDateText 1985 3 15 in
  nextOccurrence s (local_time 2024 3 16 0 0) = local_time 2025 3 15 0 0
  /\ nextOccurrence s (local_time 2024 3 16 12 0) = local_time 2025 3 15 0 0
  /\ getDaysUntilBirthday s (local_time 2024 3 16 0 0) = 364
  /\ getDaysUntilBirthday s (local_time 2024 3 16 12 0) = 363.
Proof. cbv zeta. conjuncts; by_eval. Qed.

(** C7, as the claim has it, fails: on 2023-02-28 the month and day come
    before 29 February, the birthday, so that the claim leaves the year
    2023 out and counts 22; the age computed is 23. *)
Lemma C7_counterexample :
  let s := mkDateText 2000 2 29 in
  let today := local_time 2023 2 28 0 0 in
  well_formed s = true /\ dayjs s <= today
  /\ precedes (month today + 1) (date today) (text_month s) (text_day s) = true
  /\ completed_birthdays s today = 22
  /\ calculateAge s today = 23.
Proof. cbv zeta. conjuncts; by_eval. Qed.

(** C7, amended. For a well formed birthday that is not after the
    instant, the age is the number of completed birthdays, where the day
    of the birthday is cut down to the length of its month in the year
    of the instant (29 February counts as the 28th in a year that is not
    a leap year); when the day exists in that year this is the count of
    the claim. *)
Theorem C7_age_is_completed_birthdays (s : DateText) (today : Z) :
  well_formed s = true -> dayjs s <= today ->
  calculateAge s today = completed_birthdays_clamped s today
  /\ (text_day s <= DaysInMonth (year today) (text_month s - 1) ->
      calculateAge s today = completed_birthdays s today).
Proof.
  intros W Hle. rewrite (calculateAge_completed s today W Hle).
  split; [reflexivity|]. intros Hd.
  unfold completed_birthdays_clamped, completed_birthdays.
  now rewrite Z.min_l by exact Hd.
Qed.

Lemma C7_witness :
  let s := mkDateText 1985 3 15 in
  let today := local_time 2024 3 15 0 0 in
  well_formed s = true /\ dayjs s <= today /\ calculateAge s today = 39.
Proof.
  intros s today.
  assert (W : well_formed s = true) by by_eval.
  assert (L : dayjs s <= today) by by_eval.
  split; [exact W |]. split; [exact L |].
  destruct (C7_age_is_completed_birthdays s today W L) as [H _].
  rewrite H. by_eval.
Defined.

(** C8. The list of upcoming birthdays is the list of people with some
    of them left out, the others in their order, and everyone in it has
    a day count of at most 30, the window of the component. *)
Theorem C8_upcoming_is_stable_filter (people : list Person) (today : Z) :
  Subseq (getUpcomingBirthdays people today) people
  /\ Forall (fun p => getDaysUntilBirthday (birthday p) today <= 30)
            (getUpcomingBirthdays people today).
Proof.
  split.
  - apply filter_Subseq.
  - rewrite upcoming_window. apply Forall_forall. intros p Hp.
    apply filter_In in Hp. destruct Hp as [_ Hp].
    apply andb_true_iff in Hp. destruct Hp as [_ Hp].
    apply Z.ltb_lt in Hp. lia.
Qed.

(** C9. Deleting a person writes one line to the console and then does
    what [loadPeople] does: the only request that reaches the store is
    [list], which changes nothing; with a store whose [list] leaves its
    records as they are, the records after the action are those before. *)
Theorem C9_handleDelete_only_lists
    (Remote : Type) (Person_list : Remote -> Completion ListResponse * Remote)
    (records : Remote -> list Person) (id : string) (w : World Remote) :
  (forall r, records (snd (Person_list r)) = records r) ->
  let after := snd (handleDelete Remote Person_list id w) in
  handleDelete Remote Person_list id w
  = loadPeople Remote Person_list
      (mkWorld (people w) (loading w) (modalVisible w) (editingPerson w)
         (console w
          ++ [Log "Delete functionality would be implemented here for ID:" id])
         (requests w) (remote w))
  /\ requests after = requests w ++ [ReqList]
  /\ (forall r, In r (requests after) -> ~ In r (requests w) -> mutating r = false)
  /\ records (remote after) = records (remote w).
Proof.
  intros Hread after.
  split; [apply handleDelete_run |].
  assert (R : requests after = requests w ++ [ReqList]
              /\ remote after = snd (Person_list (remote w))).
  { unfold after. rewrite handleDelete_run, loadPeople_run.
    cbn [people loading modalVisible editingPerson console requests remote].
    destruct (Person_list (remote w)) as [[response | e] r]; split; reflexivity. }
  destruct R as [Rq Rr]. split; [exact Rq |]. split.
  - intros r Hin Hnew. rewrite Rq in Hin. apply in_app_or in Hin.
    destruct Hin as [Hin | [<- | []]]; [contradiction | reflexivity].
  - rewrite Rr. apply Hread.
Qed.

Lemma C9_witness :
  let john := person_born "7" 1985 3 15 in
  let after := snd (handleDelete (list Person) answering_store "7"
                      (initial_world [john])) in
  (forall r, snd (answering_store r) = r)
  /\ requests after = [ReqList]
  /\ remote after = [john]
  /\ people after = [john].
Proof.
  intros john after.
  assert (Hread : forall r : list Person, snd (answering_store r) = r)
    by (intros r; reflexivity).
  destruct (C9_handleDelete_only_lists (list Person) answering_store
              (fun r => r) "7" (initial_world [john]) Hread)
    as (_ & Hq & _ & Hr).
  split; [exact Hread |]. split; [exact Hq |]. split; [exact Hr | reflexivity].
Defined.

(** C10. When the call of the store throws, or answers without success,
    [loadPeople] leaves the list of people as it was and ends with the
    loading flag off. *)
Theorem C10_failed_load_keeps_people
    (Remote : Type) (Person_list : Remote -> Completion ListResponse * Remote)
    (w : World Remote) :
  (exists e, fst (Person_list (remote w)) = Throw e)
  \/ (exists response, fst (Person_list (remote w)) = Normal response
                       /\ success response = false) ->
  let after := snd (loadPeople Remote Person_list w) in
  people after = people w /\ loading after = false
  /\ fst (loadPeople Remote Person_list w) = Normal tt.
Proof.
  intros Hfail after. unfold after. rewrite loadPeople_run.
  destruct (Person_list (remote w)) as [[response | e] r];
    cbn [fst snd people loading] in *.
  - destruct Hfail as [[e He] | [response' [He Hs]]]; [discriminate |].
    injection He as <-. rewrite Hs. now conjuncts.
  - now conjuncts.
Qed.

Lemma C10_witness :
  let john := person_born "7" 1985 3 15 in
  let w := mkWorld [john] false false None [] [] [john] in
  (people (snd (loadPeople (list Person) failing_store w)) = [john]
   /\ loading (snd (loadPeople (list Person) failing_store w)) = false)
  /\ (people (snd (loadPeople (list Person) refusing_store w)) = [john]
      /\ loading (snd (loadPeople (list Person) refusing_store w)) = false).
Proof.
  intros john w. split.
  - destruct (C10_failed_load_keeps_people (list Person) failing_store w)
      as (Hp & Hl & _).
    + left. exists (StoreError "network"). reflexivity.
    + split; [exact Hp | exact Hl].
  - destruct (C10_failed_load_keeps_people (list Person) refusing_store w)
      as (Hp & Hl & _).
    + right. exists (mkListResponse false []). split; reflexivity.
    + split; [exact Hp | exact Hl].
Defined.

End Claims.

(** ** More on the birthday functions *)

Module EngineFacts.
Import ES Calendar ESFacts CalFacts Dayjs DayjsFacts MonthDiffFacts.
Import CRM Notions CRMFacts Page PageNotions.

Lemma FirstOfMonth_le (k k' : Z) : k <= k' -> FirstOfMonth k <= FirstOfMonth k'.
Proof.
  intros H. destruct (Z.eq_dec k k') as [-> | N]; [lia |].
  pose proof (FirstOfMonth_lt k k'). pose proof (MonthLength_range k). lia.
Qed.

(** A day of month [k] is a day of the year of that month. *)
Lemma day_in_year (k d : Z) :
  1 <= d <= MonthLength k ->
  FirstOfMonth (12 * (k / 12)) <= FirstOfMonth k + d - 1
  < FirstOfMonth (12 * (k / 12) + 12).
Proof.
  intros Hd.
  pose proof (FirstOfMonth_le (12 * (k / 12)) k ltac:(zdiv)).
  pose proof (FirstOfMonth_lt k (12 * (k / 12) + 12) ltac:(zdiv)). lia.
Qed.

(** From the occurrence of one year to that of the next there are 365
    or 366 days. *)
Lemma year_later_clamped (k kb d : Z) :
  k mod 12 = kb mod 12 -> 1 <= d <= MonthLength kb ->
  365 <= FirstOfMonth (k + 12) + clamp d (k + 12) - (FirstOfMonth k + clamp d k)
  <= 366.
Proof.
  unfold FirstOfMonth, MakeDay, clamp, MonthLength, DaysInMonth.
  rewrite !Z.add_0_l. intros Hk.
  replace ((k + 12) / 12) with (k / 12 + 1) by zdiv.
  replace ((k + 12) mod 12) with (k mod 12) by zdiv.
  rewrite <- Hk.
  rewrite DayFromYear_succ, DaysInYear_LeapDays.
  assert (Hm : 0 <= k mod 12 < 12) by zdiv.
  assert (Hl : LeapDays (k / 12) = 1 -> LeapDays (k / 12 + 1) = 0).
  { unfold LeapDays, DaysInYear. intros H.
    assert ((k / 12) mod 4 = 0) by zb.
    assert ((k / 12 + 1) mod 4 <> 0) by zdiv. zb. }
  destruct (LeapDays_cases (k / 12)) as [L | L],
           (LeapDays_cases (k / 12 + 1)) as [L' | L'],
           (LeapDays_cases (kb / 12)) as [Lb | Lb];
    rewrite ?L, ?L', ?Lb in *; try lia; unfold MonthStart; intros Hd; zb.
Qed.

Lemma this_month_mod (kt kb : Z) : this_month kt kb mod 12 = kb mod 12.
Proof. unfold this_month. zdiv. Qed.

Lemma this_month_div (kt kb : Z) : this_month kt kb / 12 = kt / 12.
Proof. unfold this_month. zdiv. Qed.

Lemma thisYearBirthday_near (kb bd kt td tod : Z) :
  1 <= bd <= MonthLength kb -> 1 <= td <= MonthLength kt ->
  0 <= tod < msPerDay ->
  stamp (this_month kt kb) (clamp bd (this_month kt kb)) 0 - stamp kt td tod
  < 366 * msPerDay.
Proof.
  intros Hbd Htd Htod.
  pose proof (clamp_ok bd (this_month kt kb) (proj1 Hbd)) as Hc.
  pose proof (day_in_year (this_month kt kb) _ Hc) as D1.
  pose proof (day_in_year kt td Htd) as D2.
  rewrite this_month_div in D1.
  pose proof (FirstOfMonth_year (12 * (kt / 12))).
  unfold stamp, MakeDate, msPerDay in *. lia.
Qed.

Lemma nextYearBirthday_near (kb bd kt : Z) :
  1 <= bd <= MonthLength kb ->
  365 * msPerDay
  <= stamp (this_month kt kb + 12) (clamp bd (this_month kt kb + 12)) 0
     - stamp (this_month kt kb) (clamp bd (this_month kt kb)) 0
  <= 366 * msPerDay.
Proof.
  intros Hbd.
  pose proof (year_later_clamped (this_month kt kb) kb bd
                (this_month_mod kt kb) Hbd).
  unfold stamp, MakeDate, msPerDay. lia.
Qed.

(** The occurrence counted to: a midnight after the instant of the call,
    at most 366 days away. *)
Lemma nextOccurrence_view (s : DateText) (t : Z) :
  exists k c,
    nextOccurrence s t = stamp k c 0 /\ 1 <= c <= MonthLength k
    /\ t < nextOccurrence s t <= t + 366 * msPerDay
    /\ (k / 12 = year t \/ k / 12 = year t + 1)
    /\ k mod 12 = month (dayjs s)
    /\ c = clamp (date (dayjs s)) k.
Proof.
  destruct (birthday_view s) as (kb & bd & Eb & Hbd & Hkb & Hdb).
  destruct (stamp_view t) as (kt & td & tod & Et & Htd & Htod & Hkt & _).
  pose proof (month_range t) as Hmt. pose proof (month_range (dayjs s)) as Hmb.
  assert (Yt : kt / 12 = year t) by zdiv.
  assert (Mb : kb mod 12 = month (dayjs s)) by zdiv.
  clear Hkt Hkb. rewrite <- Yt, <- Mb, <- Hdb. clear Yt Mb Hdb Hmt Hmb.
  unfold nextOccurrence, isAfter. rewrite Eb. subst t.
  rewrite thisYearBirthday_stamp, nextYearBirthday_stamp by assumption.
  pose proof (today_before_nextYearBirthday kb bd kt td tod Hbd Htd Htod) as A1.
  pose proof (thisYearBirthday_near kb bd kt td tod Hbd Htd Htod) as A2.
  pose proof (nextYearBirthday_near kb bd kt Hbd) as A3.
  pose proof (this_month_mod kt kb) as M. pose proof (this_month_div kt kb) as D.
  destruct (Z.ltb_spec (stamp kt td tod)
              (stamp (this_month kt kb) (clamp bd (this_month kt kb)) 0))
    as [A | A].
  - exists (this_month kt kb), (clamp bd (this_month kt kb)).
    split; [reflexivity |]. split; [apply clamp_ok; lia |].
    split; [lia |]. split; [left; exact D |]. split; [exact M | reflexivity].
  - exists (this_month kt kb + 12), (clamp bd (this_month kt kb + 12)).
    split; [reflexivity |]. split; [apply clamp_ok; lia |].
    split; [lia |]. split; [right; zdiv |]. split; [zdiv | reflexivity].
Qed.

Lemma Day_MakeDate_whole (d : Z) : Day (d * msPerDay) = d.
Proof. unfold Day, msPerDay. zdiv. Qed.

Lemma Day_stamp (k d tod : Z) :
  0 <= tod < msPerDay -> Day (stamp k d tod) = FirstOfMonth k + d - 1.
Proof. intros H. unfold stamp. now apply Day_MakeDate. Qed.

(** The day count: the days from the date of the call to the date of the
    occurrence, less one unless the call is made at midnight. *)
Lemma getDaysUntilBirthday_days (s : DateText) (t : Z) :
  getDaysUntilBirthday s t
  = Day (nextOccurrence s t) - Day t
    - (if TimeWithinDay t =? 0 then 0 else 1).
Proof.
  rewrite getDaysUntilBirthday_nextOccurrence.
  destruct (nextOccurrence_view s t) as (k & c & E & Hc & Hlt & _).
  rewrite diff_day_floor by lia.
  rewrite E in *. rewrite Day_stamp by apply midnight_ok.
  unfold stamp, MakeDate in Hlt |- *.
  set (D := FirstOfMonth k + c - 1) in *.
  unfold Day, TimeWithinDay, msPerDay in *. zb; zdiv.
Qed.

Lemma getDaysUntilBirthday_range (s : DateText) (t : Z) :
  0 <= getDaysUntilBirthday s t <= 366.
Proof.
  rewrite getDaysUntilBirthday_nextOccurrence.
  destruct (nextOccurrence_view s t) as (k & c & _ & _ & Hlt & _).
  rewrite diff_day_floor by lia. unfold msPerDay in *. zdiv.
Qed.

(** *** The fields of a well formed birthday *)

Lemma dayjs_fields (s : DateText) :
  well_formed s = true ->
  year (dayjs s) = text_year s /\ month (dayjs s) = text_month s - 1
  /\ date (dayjs s) = text_day s.
Proof.
  intros W. destruct (dayjs_well_formed s W) as [E Hd].
  apply well_formed_inv in W. rewrite E.
  rewrite year_stamp, month_stamp, date_stamp by auto using midnight_ok.
  split; [zdiv |]. split; [zdiv | reflexivity].
Qed.

Lemma format_dayjs (s : DateText) :
  well_formed s = true -> format_YYYY_MM_DD (dayjs s) = s.
Proof.
  intros W. destruct (dayjs_fields s W) as (Hy & Hm & Hd).
  unfold format_YYYY_MM_DD. rewrite Hy, Hm, Hd. destruct s. cbn. f_equal. lia.
Qed.

Lemma personData_of_fields_of (person : Person) :
  well_formed (birthday person) = true ->
  personData_of (fields_of person)
  = mkPerson "" (name person) (birthday person)
             (email person) (phone person) (notes person).
Proof.
  intros W. unfold personData_of, fields_of. cbn.
  now rewrite (format_dayjs (birthday person) W).
Qed.

Lemma dayjs_format (d : Z) :
  100 <= year d -> dayjs (format_YYYY_MM_DD d) = MakeDate (Day d) 0.
Proof.
  intros Hy. rewrite dayjs_unfold. unfold format_YYYY_MM_DD.
  cbv beta iota delta [text_year text_month text_day].
  destruct (Z.leb_spec 0 (year d)), (Z.leb_spec (year d) 99);
    cbv beta iota delta [andb]; try lia.
  replace (month d + 1 - 1) with (month d) by lia.
  f_equal. unfold year, month, date, getFullYear, getMonth, getDate.
  rewrite MakeDay_in_range by apply MonthOfYearDay_range.
  unfold DateFromTime, DayWithinYear, InLeapYear. lia.
Qed.

(** *** The occurrence counted to *)

Lemma nextOccurrence_fields (s : DateText) (t : Z) :
  let o := nextOccurrence s t in
  TimeWithinDay o = 0
  /\ (year o = year t \/ year o = year t + 1)
  /\ month o = month (dayjs s)
  /\ date o = Z.min (date (dayjs s)) (DaysInMonth (year o) (month o)).
Proof.
  cbv zeta.
  destruct (nextOccurrence_view s t) as (k & c & E & Hc & _ & Hy & Hm & Hcl).
  rewrite E.
  rewrite year_stamp, month_stamp, date_stamp by auto using midnight_ok.
  split; [apply TimeWithinDay_stamp; auto using midnight_ok |].
  split; [exact Hy |]. split; [exact Hm |].
  rewrite Hcl. reflexivity.
Qed.

(** *** Ages against occurrences and over time *)

Lemma age_steps_at_occurrence (s : DateText) (t : Z) :
  well_formed s = true -> dayjs s <= t ->
  calculateAge s t
  = year t - text_year s
    - (if t <? set_year (dayjs s) (year t) then 1 else 0).
Proof.
  intros W Hle.
  rewrite (calculateAge_completed s t W Hle).
  destruct (dayjs_well_formed s W) as [Eb Hbd].
  destruct (stamp_view t) as (kt & td & tod & Et & Htd & Htod & Hk & Hdd).
  pose proof (month_range t) as Hmt.
  pose proof (well_formed_inv s W) as (Hy & Hm & Hd).
  assert (Yt : kt / 12 = year t) by zdiv.
  unfold completed_birthdays_clamped, precedes.
  rewrite Eb, set_year_stamp by auto using midnight_ok.
  replace ((12 * text_year s + (text_month s - 1)) mod 12)
    with (text_month s - 1) by zdiv.
  assert (Ec : clamp (text_day s) (12 * year t + (text_month s - 1))
               = Z.min (text_day s) (DaysInMonth (year t) (text_month s - 1))).
  { unfold clamp. now rewrite MonthLength_index by lia. }
  rewrite Ec.
  set (c := Z.min (text_day s) (DaysInMonth (year t) (text_month s - 1))) in *.
  assert (Hc : 1 <= c <= MonthLength (12 * year t + (text_month s - 1))).
  { rewrite <- Ec. apply clamp_ok. lia. }
  assert (Hiff : t < stamp (12 * year t + (text_month s - 1)) c 0
                 <-> month t + 1 < text_month s
                     \/ (month t + 1 = text_month s /\ date t < c)).
  { rewrite Et at 1. rewrite stamp_lt_midnight_iff by assumption. lia. }
  destruct (Z.ltb_spec t (stamp (12 * year t + (text_month s - 1)) c 0)); zb.
Qed.

Lemma stamp_le_day (k d tod d' tod' : Z) :
  stamp k d tod <= stamp k d' tod' ->
  0 <= tod < msPerDay -> 0 <= tod' < msPerDay -> d <= d'.
Proof. unfold stamp, MakeDate, msPerDay. lia. Qed.

(** The months, less one when the day is still to come, that the age is
    the twelfth of. *)
Lemma age_months_mono (kb bd k1 d1 tod1 k2 d2 tod2 : Z) :
  stamp k1 d1 tod1 <= stamp k2 d2 tod2 ->
  1 <= d1 <= MonthLength k1 -> 1 <= d2 <= MonthLength k2 ->
  0 <= tod1 < msPerDay -> 0 <= tod2 < msPerDay ->
  k1 - kb - (if d1 <? clamp bd k1 then 1 else 0)
  <= k2 - kb - (if d2 <? clamp bd k2 then 1 else 0).
Proof.
  intros Hle H1 H2 T1 T2.
  assert (k1 <= k2) by (eapply stamp_le_inv; eauto; lia).
  destruct (Z.eq_dec k1 k2) as [E | N].
  - subst k2. pose proof (stamp_le_day _ _ _ _ _ Hle T1 T2). zb.
  - zb.
Qed.

Lemma calculateAge_nonneg_mono (s : DateText) (t1 t2 : Z) :
  well_formed s = true -> dayjs s <= t1 -> t1 <= t2 ->
  0 <= calculateAge s t1 <= calculateAge s t2.
Proof.
  intros W Hb Hle.
  destruct (stamp_view t1) as (k1 & d1 & tod1 & E1 & Hd1 & Ht1 & _).
  destruct (stamp_view t2) as (k2 & d2 & tod2 & E2 & Hd2 & Ht2 & _).
  subst t1 t2.
  rewrite !calculateAge_stamps by (assumption || lia).
  pose proof (age_months_mono (12 * text_year s + (text_month s - 1))
                (text_day s) k1 d1 tod1 k2 d2 tod2 Hle Hd1 Hd2 Ht1 Ht2) as M.
  destruct (dayjs_well_formed s W) as [Eb Hbd].
  rewrite Eb in Hb.
  pose proof (age_months_mono (12 * text_year s + (text_month s - 1))
                (text_day s) _ _ _ k1 d1 tod1 Hb Hbd Hd1 midnight_ok Ht1) as M0.
  replace (clamp (text_day s) (12 * text_year s + (text_month s - 1)))
    with (text_day s) in M0 by (unfold clamp; lia).
  rewrite Z.ltb_irrefl in M0.
  split.
  - apply Z.div_pos; lia.
  - apply Z.div_le_mono; lia.
Qed.

(** Of two people, the one born earlier is at least as old. *)
Lemma calculateAge_antitone (a b : DateText) (t : Z) :
  well_formed a = true -> well_formed b = true ->
  dayjs a <= dayjs b -> dayjs b <= t ->
  calculateAge b t <= calculateAge a t.
Proof.
  intros Wa Wb Hab Hbt.
  destruct (stamp_view t) as (kt & td & tod & Et & Htd & Htod & _).
  subst t.
  rewrite !calculateAge_stamps by (assumption || lia).
  destruct (dayjs_well_formed a Wa) as [Ea Ha].
  destruct (dayjs_well_formed b Wb) as [Eb Hb].
  rewrite Ea, Eb in *.
  set (ka := 12 * text_year a + (text_month a - 1)) in *.
  set (kb := 12 * text_year b + (text_month b - 1)) in *.
  assert (ka <= kb)
    by (eapply stamp_le_inv; eauto using midnight_ok; lia).
  apply Z.div_le_mono; [lia |].
  destruct (Z.eq_dec ka kb) as [E | N].
  - rewrite E in *.
    pose proof (stamp_le_day _ _ _ _ _ Hab midnight_ok midnight_ok).
    unfold clamp. zb.
  - zb.
Qed.

(** *** The day of the birthday in the list and in the table *)

Lemma birthday_today_not_upcoming (people : list Person) (p : Person) (t : Z) :
  well_formed (birthday p) = true ->
  month t + 1 = text_month (birthday p) -> date t = text_day (birthday p) ->
  ~ In p (getUpcomingBirthdays people t).
Proof.
  intros W Hm Hd Hin. rewrite upcoming_window in Hin.
  apply filter_In in Hin. destruct Hin as [_ Hin].
  apply andb_true_iff in Hin. destruct Hin as [_ Hin]. apply Z.ltb_lt in Hin.
  pose proof (birthday_today (birthday p) t W Hm Hd). lia.
Qed.

(** The badge is the day count 0: a call that is not made at midnight,
    with the occurrence at the midnight that follows. *)
Lemma days_zero_iff (s : DateText) (t : Z) :
  getDaysUntilBirthday s t = 0
  <-> TimeWithinDay t <> 0 /\ nextOccurrence s t = MakeDate (Day t + 1) 0.
Proof.
  rewrite getDaysUntilBirthday_days.
  destruct (nextOccurrence_view s t) as (k & c & E & Hc & Hlt & _).
  rewrite E in *. rewrite Day_stamp by apply midnight_ok.
  unfold stamp in *. set (D := FirstOfMonth k + c - 1) in *.
  unfold MakeDate, Day, TimeWithinDay, msPerDay in *.
  split.
  - intros H. zb; zdiv.
  - intros [H0 H1]. zb; zdiv.
Qed.

(** The count looks at the month and the day of the birthday only. *)
Lemma set_year_month_day (a b : DateText) (y : Z) :
  well_formed a = true -> well_formed b = true ->
  text_month a = text_month b -> text_day a = text_day b ->
  set_year (dayjs a) y = set_year (dayjs b) y.
Proof.
  intros Wa Wb Hm Hd.
  destruct (dayjs_well_formed a Wa) as [Ea Ha].
  destruct (dayjs_well_formed b Wb) as [Eb Hb].
  rewrite Ea, Eb, !set_year_stamp by auto using midnight_ok.
  rewrite Hm, Hd.
  replace ((12 * text_year a + (text_month b - 1)) mod 12)
    with ((12 * text_year b + (text_month b - 1)) mod 12) by zdiv.
  reflexivity.
Qed.

(** *** The sorter of the birthdays *)

Lemma dayjs_whole_days (s : DateText) : dayjs s = Day (dayjs s) * msPerDay.
Proof.
  pose proof (MakeDate_Day (dayjs s)) as H.
  rewrite dayjs_midnight in H. unfold MakeDate in H. lia.
Qed.

(** Two midnights in their order are a day apart at least, and stay in
    their order in universal time when the offset of the zone changes by
    less than a day. *)
Lemma dayjs_lt_whole_day (a b : DateText) :
  dayjs a < dayjs b -> dayjs a + msPerDay <= dayjs b.
Proof.
  rewrite (dayjs_whole_days a), (dayjs_whole_days b).
  set (A := Day (dayjs a)). set (B := Day (dayjs b)).
  unfold msPerDay. nia.
Qed.

Lemma unix_lt (utcOffset : Z -> Z) (d d' : Z) :
  (forall x y, utcOffset y - utcOffset x <= msPerDay - 1000) ->
  d + msPerDay <= d' -> unix utcOffset d < unix utcOffset d'.
Proof.
  intros Hz H. specialize (Hz d d'). unfold unix, msPerDay in *. zdiv.
Qed.

Lemma sortBirthday_sign (utcOffset : Z -> Z) (a b : Person) :
  (forall x y, utcOffset y - utcOffset x <= msPerDay - 1000) ->
  (sortBirthday utcOffset a b < 0 <-> dayjs (birthday a) < dayjs (birthday b))
  /\ (sortBirthday utcOffset a b = 0 <-> dayjs (birthday a) = dayjs (birthday b)).
Proof.
  intros Hz. unfold sortBirthday.
  pose proof (unix_lt utcOffset (dayjs (birthday a)) (dayjs (birthday b)) Hz) as L1.
  pose proof (unix_lt utcOffset (dayjs (birthday b)) (dayjs (birthday a)) Hz) as L2.
  pose proof (dayjs_lt_whole_day (birthday a) (birthday b)) as W1.
  pose proof (dayjs_lt_whole_day (birthday b) (birthday a)) as W2.
  destruct (Z.lt_trichotomy (dayjs (birthday a)) (dayjs (birthday b)))
    as [L | [E | G]].
  - specialize (L1 (W1 L)). lia.
  - rewrite E. lia.
  - specialize (L2 (W2 G)). lia.
Qed.

Lemma dayjs_injective (a b : DateText) :
  well_formed a = true -> well_formed b = true -> dayjs a = dayjs b -> a = b.
Proof.
  intros Wa Wb E.
  rewrite <- (format_dayjs a Wa), <- (format_dayjs b Wb). now rewrite E.
Qed.

Lemma dayjs_lt_born_before (a b : DateText) :
  well_formed a = true -> well_formed b = true ->
  (dayjs a < dayjs b <-> born_before a b).
Proof.
  intros Wa Wb.
  destruct (dayjs_well_formed a Wa) as [Ea Ha].
  destruct (dayjs_well_formed b Wb) as [Eb Hb].
  apply well_formed_inv in Wa, Wb.
  rewrite Ea, Eb, stamp_lt_midnight_iff by auto using midnight_ok.
  unfold born_before. lia.
Qed.

End EngineFacts.

(** ** The handlers of the form *)

Module PageFacts.
Import ES Calendar ESFacts CalFacts Dayjs DayjsFacts.
Import CRM Notions CRMFacts ActionsFacts EngineFacts Page PageNotions.

Section Runs.
Variable Remote : Type.
Variable Person_list : Remote -> Completion ListResponse * Remote.
Variable Person_create : Person -> Remote -> Completion SaveResponse * Remote.
Variable Person_update : string -> Person -> Remote -> Completion SaveResponse * Remote.

#[local] Abbreviation handleSubmit := (handleSubmit Remote Person_list Person_create Person_update).
#[local] Abbreviation handle := (handle Remote Person_list Person_create Person_update).
#[local] Abbreviation after := (after Remote Person_list Person_create Person_update).
#[local] Abbreviation after_all := (after_all Remote Person_list Person_create Person_update).
#[local] Abbreviation save_answer := (save_answer Remote Person_create Person_update).
#[local] Abbreviation saved := (saved Remote Person_create Person_update).
#[local] Abbreviation loadPeople := (loadPeople Remote Person_list).

Ltac fields :=
  cbn [world formFields people loading modalVisible editingPerson
       console requests remote fst snd].

(** What [handleSubmit] leaves behind, by the answer of the store. *)
Lemma handleSubmit_run (values : FormValues) (pg : Page Remote) :
  handleSubmit values pg
  = let w := world pg in
    let sent := requests w ++ [save_request Remote values w] in
    match save_answer values w with
    | (Normal response, r) =>
        if save_success response
        then (Normal tt,
              mkPage (snd (loadPeople
                             (mkWorld (people w) (loading w) false None
                                      (console w) sent r)))
                     None)
        else (Normal tt,
              mkPage (mkWorld (people w) (loading w) (modalVisible w)
                              (editingPerson w) (console w) sent r)
                     (formFields pg))
    | (Throw e, r) =>
        (Normal tt,
         mkPage (mkWorld (people w) (loading w) (modalVisible w)
                         (editingPerson w)
                         (console w ++ [Error "Failed to save person:" e])
                         sent r)
                (formFields pg))
    end.
Proof.
  cbv zeta.
  unfold Page.handleSubmit, ptry_catch, pbind, pret, lift, resetFields,
    setModalVisible, setEditingPerson, console_write,
    Person_update_call, Person_create_call,
    PageNotions.save_answer, save_request.
  destruct (editingPerson (world pg)) as [editing |].
  - destruct (Person_update (_id editing) (personData_of values) (remote (world pg)))
      as [[response | e] r]; fields; [| reflexivity].
    destruct (save_success response); fields; [| reflexivity].
    rewrite loadPeople_run. fields.
    destruct (Person_list r) as [[lr | le] r']; reflexivity.
  - destruct (Person_create (personData_of values) (remote (world pg)))
      as [[response | e] r]; fields; [| reflexivity].
    destruct (save_success response); fields; [| reflexivity].
    rewrite loadPeople_run. fields.
    destruct (Person_list r) as [[lr | le] r']; reflexivity.
Qed.

Lemma lift_loadPeople_run (pg : Page Remote) :
  lift Remote loadPeople pg
  = (Normal tt, mkPage (snd (loadPeople (world pg))) (formFields pg)).
Proof.
  unfold lift. rewrite loadPeople_run.
  destruct (Person_list (remote (world pg))) as [[lr | le] r]; reflexivity.
Qed.

Lemma lift_handleDelete_run (id : string) (pg : Page Remote) :
  lift Remote (handleDelete Remote Person_list id) pg
  = (Normal tt,
     mkPage (snd (handleDelete Remote Person_list id (world pg))) (formFields pg)).
Proof.
  unfold lift. rewrite handleDelete_run, loadPeople_run. fields.
  destruct (Person_list (remote (world pg))) as [[lr | le] r]; reflexivity.
Qed.

(** No handler lets an error out. *)
Lemma handle_normal (e : Event) (pg : Page Remote) :
  fst (handle e pg) = Normal tt.
Proof.
  destruct e; cbn [Page.handle].
  - now rewrite lift_loadPeople_run.
  - reflexivity.
  - reflexivity.
  - reflexivity.
  - rewrite handleSubmit_run. cbv zeta.
    destruct (save_answer values (world pg)) as [[response | err] r];
      [destruct (save_success response) |]; reflexivity.
  - now rewrite lift_handleDelete_run.
Qed.

(** What [loadPeople] does not touch. *)
Lemma loadPeople_frame (w : World Remote) :
  modalVisible (snd (loadPeople w)) = modalVisible w
  /\ editingPerson (snd (loadPeople w)) = editingPerson w
  /\ requests (snd (loadPeople w)) = requests w ++ [ReqList]
  /\ loading (snd (loadPeople w)) = false.
Proof.
  rewrite loadPeople_run.
  destruct (Person_list (remote w)) as [[lr | le] r]; fields; auto.
Qed.

Lemma handleDelete_frame (id : string) (w : World Remote) :
  modalVisible (snd (handleDelete Remote Person_list id w)) = modalVisible w
  /\ editingPerson (snd (handleDelete Remote Person_list id w)) = editingPerson w
  /\ requests (snd (handleDelete Remote Person_list id w)) = requests w ++ [ReqList].
Proof.
  rewrite handleDelete_run.
  destruct (loadPeople_frame
              (mkWorld (people w) (loading w) (modalVisible w) (editingPerson w)
                 (console w ++ [Log "Delete functionality would be implemented here for ID:" id])
                 (requests w) (remote w))) as (H1 & H2 & H3 & _).
  fields. auto.
Qed.

(** The dialog is closed only with no person being edited and the form
    reset. *)
Lemma after_closed_is_clean (e : Event) (pg : Page Remote) :
  closed_is_clean pg -> closed_is_clean (after e pg).
Proof.
  unfold closed_is_clean, Page.after. intros Inv.
  destruct e; cbn [Page.handle].
  - rewrite lift_loadPeople_run. fields.
    destruct (loadPeople_frame (world pg)) as (H1 & H2 & _).
    rewrite H1, H2. exact Inv.
  - cbn. discriminate.
  - cbn. discriminate.
  - cbn. auto.
  - rewrite handleSubmit_run. cbv zeta.
    destruct (save_answer values (world pg)) as [[response | err] r];
      [destruct (save_success response) |]; fields; try exact Inv.
    intros _.
    destruct (loadPeople_frame
                (mkWorld (people (world pg)) (loading (world pg)) false None
                   (console (world pg))
                   (requests (world pg) ++ [save_request Remote values (world pg)])
                   r)) as (_ & H2 & _).
    rewrite H2. auto.
  - rewrite lift_handleDelete_run. fields.
    destruct (handleDelete_frame id (world pg)) as (H1 & H2 & _).
    rewrite H1, H2. exact Inv.
Qed.

Lemma after_all_closed_is_clean (es : list Event) (pg : Page Remote) :
  closed_is_clean pg -> closed_is_clean (after_all es pg).
Proof.
  revert pg. induction es as [| e es IH]; intros pg Inv; cbn.
  - exact Inv.
  - apply IH, after_closed_is_clean, Inv.
Qed.

(** The requests sent by one event. *)
Lemma after_requests (e : Event) (pg : Page Remote) :
  requests (world (after e pg))
  = requests (world pg)
    ++ match e with
       | Mounted | DeleteConfirmed _ => [ReqList]
       | AddPersonClicked | EditClicked _ | CancelClicked => []
       | FormFinished values =>
           save_request Remote values (world pg)
           :: (if saved values (world pg) then [ReqList] else [])
       end.
Proof.
  unfold Page.after. destruct e; cbn [Page.handle].
  - rewrite lift_loadPeople_run. fields.
    now destruct (loadPeople_frame (world pg)) as (_ & _ & H & _).
  - cbn. now rewrite app_nil_r.
  - cbn. now rewrite app_nil_r.
  - cbn. now rewrite app_nil_r.
  - rewrite handleSubmit_run. cbv zeta. unfold PageNotions.saved.
    destruct (save_answer values (world pg)) as [[response | err] r]; fields;
      [destruct (save_success response) |]; fields; try reflexivity.
    destruct (loadPeople_frame
                (mkWorld (people (world pg)) (loading (world pg)) false None
                   (console (world pg))
                   (requests (world pg) ++ [save_request Remote values (world pg)])
                   r)) as (_ & _ & H & _).
    rewrite H. fields. now rewrite <- app_assoc.
  - rewrite lift_handleDelete_run. fields.
    now destruct (handleDelete_frame id (world pg)) as (_ & _ & H).
Qed.

End Runs.

End PageFacts.

(** ** Further statements about the component *)

Module Extras.
Import ES Calendar ESFacts CalFacts Dayjs DayjsFacts MonthDiffFacts.
Import CRM Notions CRMFacts ActionsFacts EngineFacts Page PageNotions PageFacts.

Ltac by_eval := vm_compute; first [reflexivity | intro; discriminate].
Ltac conjuncts := repeat match goal with |- _ /\ _ => split end.

(** X1. For every birthday text of three groups of digits, in range or
    not, and every instant, the day count is a number between 0 and 366,
    and the occurrence counted to is after the instant, at most 366 days
    later.  For a text that is not a date the day count is NaN. *)
Theorem X1_days_between_0_and_366 (b : Texts.BirthdayText) (today : Z) :
  match b with
  | Texts.Digits s =>
      Texts.getDaysUntilBirthday_text b today
      = Texts.Num (getDaysUntilBirthday s today)
      /\ 0 <= getDaysUntilBirthday s today <= 366
      /\ today < nextOccurrence s today <= today + 366 * msPerDay
  | Texts.NotADate =>
      Texts.getDaysUntilBirthday_text b today = Texts.NaN
  end.
Proof.
  destruct b as [s |]; [| reflexivity].
  split; [apply TextsFacts.getDaysUntilBirthday_text_Digits |].
  split; [apply getDaysUntilBirthday_range |].
  now destruct (nextOccurrence_view s today) as (k & c & _ & _ & H & _).
Qed.

(** X2. The day count is the number of days from the date of the call to
    the date of the occurrence counted to, less one unless the call is
    made at midnight sharp. *)
Theorem X2_days_are_dates_apart_less_one (s : DateText) (today : Z) :
  getDaysUntilBirthday s today
  = Day (nextOccurrence s today) - Day today
    - (if TimeWithinDay today =? 0 then 0 else 1).
Proof. apply getDaysUntilBirthday_days. Qed.

(** X3. The cell shows the badge "Today!" exactly when the call is not
    made at midnight and the occurrence counted to is the midnight that
    ends the day of the call: the day before the birthday. *)
Theorem X3_badge_on_the_eve (record : Person) (today : Z) :
  renderDaysUntil record today = TodayBadge
  <-> TimeWithinDay today <> 0
      /\ nextOccurrence (birthday record) today = MakeDate (Day today + 1) 0.
Proof.
  rewrite <- days_zero_iff. unfold renderDaysUntil.
  destruct (Z.eqb_spec (getDaysUntilBirthday (birthday record) today) 0);
    split; intros H; try reflexivity; try assumption; try discriminate.
  contradiction.
Qed.

(** X4. On the day of a well formed birthday the cell shows a number
    from 364 to 366, not the badge, and the person is not in the list of
    upcoming birthdays. *)
Theorem X4_birthday_itself (people : list Person) (record : Person) (today : Z) :
  well_formed (birthday record) = true ->
  month today + 1 = text_month (birthday record) ->
  date today = text_day (birthday record) ->
  (exists days, renderDaysUntil record today = DaysNumber days
                /\ 364 <= days <= 366)
  /\ ~ In record (getUpcomingBirthdays people today).
Proof.
  intros W Hm Hd. split.
  - destruct (birthday_today (birthday record) today W Hm Hd) as [_ R].
    exists (getDaysUntilBirthday (birthday record) today). split; [| exact R].
    unfold renderDaysUntil.
    destruct (Z.eqb_spec (getDaysUntilBirthday (birthday record) today) 0);
      [lia | reflexivity].
  - now apply birthday_today_not_upcoming.
Qed.

Lemma X4_witness :
  let ann := person_born "1" 1985 3 15 in
  let today := local_time 2024 3 15 9 30 in
  renderDaysUntil ann today = DaysNumber 364
  /\ ~ In ann (getUpcomingBirthdays [ann] today).
Proof.
  intros ann today.
  destruct (X4_birthday_itself [ann] ann today) as [_ H]; try by_eval.
  split; [by_eval | exact H].
Defined.

(** X5. For a well formed birthday the occurrence counted to is a
    midnight in the year of the call or the year after, in the month of
    the birthday, on the day of the birthday or, when that month is
    shorter there, on its last day. *)
Theorem X5_occurrence_is_month_and_day (s : DateText) (today : Z) :
  well_formed s = true ->
  let o := nextOccurrence s today in
  TimeWithinDay o = 0
  /\ (year o = year today \/ year o = year today + 1)
  /\ month o + 1 = text_month s
  /\ date o = Z.min (text_day s) (DaysInMonth (year o) (month o)).
Proof.
  intros W o.
  destruct (nextOccurrence_fields s today) as (H0 & Hy & Hm & Hd).
  destruct (dayjs_fields s W) as (_ & Fm & Fd).
  fold o in H0, Hy, Hm, Hd. rewrite Fm in Hm. rewrite Fd in Hd.
  split; [exact H0 |]. split; [exact Hy |]. split; [lia | exact Hd].
Qed.

Lemma X5_witness :
  let o := nextOccurrence (mkDateText 2000 2 29) (local_time 2022 6 1 8 0) in
  year o = 2023 /\ month o + 1 = 2 /\ date o = 28.
Proof.
  intros o.
  destruct (X5_occurrence_is_month_and_day (mkDateText 2000 2 29)
              (local_time 2022 6 1 8 0)) as (_ & _ & Hm & Hd); [by_eval |].
  fold o in Hm, Hd. split; [by_eval |]. split; [exact Hm |].
  rewrite Hd. by_eval.
Defined.

(** X6. For a well formed birthday that is not after the instant, the
    age is the difference of the years, less one while the occurrence of
    the year of the instant (the one the day count is taken against) is
    still to come. *)
Theorem X6_age_steps_at_occurrence (s : DateText) (today : Z) :
  well_formed s = true -> dayjs s <= today ->
  calculateAge s today
  = year today - text_year s
    - (if today <? set_year (dayjs s) (year today) then 1 else 0).
Proof. apply age_steps_at_occurrence. Qed.

Lemma X6_witness :
  calculateAge (mkDateText 1985 3 15) (local_time 2024 3 14 23 59) = 38
  /\ calculateAge (mkDateText 1985 3 15) (local_time 2024 3 15 0 0) = 39.
Proof.
  split.
  - rewrite (X6_age_steps_at_occurrence (mkDateText 1985 3 15)
               (local_time 2024 3 14 23 59)); by_eval.
  - rewrite (X6_age_steps_at_occurrence (mkDateText 1985 3 15)
               (local_time 2024 3 15 0 0)); by_eval.
Defined.

(** X7. For a well formed birthday that is not after the instant the age
    is not negative, and it never goes down as time goes on. *)
Theorem X7_age_not_negative_and_growing (s : DateText) (t1 t2 : Z) :
  well_formed s = true -> dayjs s <= t1 -> t1 <= t2 ->
  0 <= calculateAge s t1 <= calculateAge s t2.
Proof. apply calculateAge_nonneg_mono. Qed.

Lemma X7_witness :
  0 <= calculateAge (mkDateText 1985 3 15) (local_time 1985 3 15 0 0)
    <= calculateAge (mkDateText 1985 3 15) (local_time 2024 3 15 0 0).
Proof.
  apply (X7_age_not_negative_and_growing (mkDateText 1985 3 15)
           (local_time 1985 3 15 0 0) (local_time 2024 3 15 0 0)); by_eval.
Defined.

(** X8. In a zone whose offset changes by less than a day from date to
    date, the sorter of the birthdays puts well formed birthdays in the
    order of the calendar: it is negative exactly when the first person
    was born before the second, zero exactly when both have the same
    birthday; and when it is not positive the first person is at least
    as old, at any instant not before the second birthday. *)
Theorem X8_birthday_sorter (utcOffset : Z -> Z) (a b : Person) (today : Z) :
  (forall d d', utcOffset d' - utcOffset d <= msPerDay - 1000) ->
  well_formed (birthday a) = true -> well_formed (birthday b) = true ->
  (sortBirthday utcOffset a b < 0 <-> born_before (birthday a) (birthday b))
  /\ (sortBirthday utcOffset a b = 0 <-> birthday a = birthday b)
  /\ (sortBirthday utcOffset a b <= 0 -> dayjs (birthday b) <= today ->
      calculateAge (birthday b) today <= calculateAge (birthday a) today).
Proof.
  intros Hz Wa Wb.
  destruct (sortBirthday_sign utcOffset a b Hz) as [Slt Seq].
  destruct (sortBirthday_sign utcOffset b a Hz) as [Sgt _].
  assert (Anti : sortBirthday utcOffset b a = - sortBirthday utcOffset a b)
    by (unfold sortBirthday; lia).
  conjuncts.
  - now rewrite <- dayjs_lt_born_before.
  - rewrite Seq. split; [now apply dayjs_injective | now intros ->].
  - intros Hs Hb. apply calculateAge_antitone; try assumption. lia.
Qed.

Lemma X8_witness :
  let a := person_born "1" 1985 3 15 in
  let b := person_born "2" 1990 7 5 in
  (forall d d', summer_time_zone d' - summer_time_zone d <= msPerDay - 1000)
  /\ sortBirthday summer_time_zone a b < 0
  /\ calculateAge (birthday b) (local_time 2024 3 15 0 0)
     <= calculateAge (birthday a) (local_time 2024 3 15 0 0).
Proof.
  intros a b.
  assert (Hz : forall d d',
             summer_time_zone d' - summer_time_zone d <= msPerDay - 1000).
  { intros d d'. unfold summer_time_zone, msPerDay.
    destruct ((90 <=? Day d mod 365) && (Day d mod 365 <? 300)),
             ((90 <=? Day d' mod 365) && (Day d' mod 365 <? 300)); lia. }
  assert (Wa : well_formed (birthday a) = true) by by_eval.
  assert (Wb : well_formed (birthday b) = true) by by_eval.
  destruct (X8_birthday_sorter summer_time_zone a b (local_time 2024 3 15 0 0)
              Hz Wa Wb) as (H1 & _ & H3).
  assert (S : sortBirthday summer_time_zone a b < 0) by by_eval.
  split; [exact Hz |]. split; [exact S |].
  apply H3; [lia | by_eval].
Defined.

(** X9. The text [handleSubmit] makes of the date [handleEdit] puts in
    the form is the stored text again: editing a person and saving the
    form untouched sends the person's own fields. *)
Theorem X9_edit_then_format (person : Person) :
  well_formed (birthday person) = true ->
  format_YYYY_MM_DD (dayjs (birthday person)) = birthday person
  /\ personData_of (fields_of person)
     = mkPerson "" (name person) (birthday person)
                (email person) (phone person) (notes person).
Proof.
  intros W. split; [now apply format_dayjs | now apply personData_of_fields_of].
Qed.

Lemma X9_witness :
  personData_of (fields_of (person_born "7" 2000 2 29))
  = person_born "" 2000 2 29.
Proof.
  destruct (X9_edit_then_format (person_born "7" 2000 2 29)) as [_ H];
    [by_eval | exact H].
Defined.

(** X10. The text [handleSubmit] makes of a picked date, read again, is
    the midnight that begins the day picked: the time of day is dropped. *)
Theorem X10_format_then_read (d : Z) :
  100 <= year d <= 9999 ->
  dayjs (format_YYYY_MM_DD d) = d - TimeWithinDay d.
Proof.
  intros H. rewrite dayjs_format by apply H.
  pose proof (MakeDate_Day d) as M. unfold MakeDate in *. lia.
Qed.

Lemma X10_witness :
  dayjs (format_YYYY_MM_DD (local_time 2024 3 15 17 45)) = local_time 2024 3 15 0 0.
Proof.
  rewrite (X10_format_then_read (local_time 2024 3 15 17 45));
    [by_eval | split; by_eval].
Defined.

(** X11. The day count and the list of upcoming birthdays look at the
    month and the day of a well formed birthday only, not at its year. *)
Theorem X11_year_of_birth_is_ignored (a b : Person) (today : Z) :
  well_formed (birthday a) = true -> well_formed (birthday b) = true ->
  text_month (birthday a) = text_month (birthday b) ->
  text_day (birthday a) = text_day (birthday b) ->
  getDaysUntilBirthday (birthday a) today = getDaysUntilBirthday (birthday b) today
  /\ (forall people, In a people -> In b people ->
      (In a (getUpcomingBirthdays people today)
       <-> In b (getUpcomingBirthdays people today))).
Proof.
  intros Wa Wb Hm Hd.
  assert (E : getDaysUntilBirthday (birthday a) today
              = getDaysUntilBirthday (birthday b) today).
  { rewrite !getDaysUntilBirthday_unfold.
    now rewrite !(set_year_month_day (birthday a) (birthday b)). }
  split; [exact E |].
  intros people Ha Hb. rewrite upcoming_window, !filter_In, E. tauto.
Qed.

Lemma X11_witness :
  getDaysUntilBirthday (mkDateText 1985 3 15) (local_time 2024 3 1 10 0)
  = getDaysUntilBirthday (mkDateText 2010 3 15) (local_time 2024 3 1 10 0).
Proof.
  apply (X11_year_of_birth_is_ignored (person_born "1" 1985 3 15)
           (person_born "2" 2010 3 15) (local_time 2024 3 1 10 0)); by_eval.
Defined.

(** *** The handlers *)

Section Handlers.
Variable Remote : Type.
Variable Person_list : Remote -> Completion ListResponse * Remote.
Variable Person_create : Person -> Remote -> Completion SaveResponse * Remote.
Variable Person_update : string -> Person -> Remote -> Completion SaveResponse * Remote.

#[local] Abbreviation handle := (handle Remote Person_list Person_create Person_update).
#[local] Abbreviation after := (after Remote Person_list Person_create Person_update).
#[local] Abbreviation after_all := (after_all Remote Person_list Person_create Person_update).
#[local] Abbreviation saved := (saved Remote Person_create Person_update).
#[local] Abbreviation save_answer := (save_answer Remote Person_create Person_update).

Ltac fields :=
  cbn [world formFields people loading modalVisible editingPerson
       console requests remote fst snd].

(** X12. Whatever the store does, no handler lets an error out: mounting,
    the buttons, the form and the deletion all complete normally. *)
Theorem X12_handlers_catch_everything (e : Event) (pg : Page Remote) :
  fst (handle e pg) = Normal tt.
Proof. apply handle_normal. Qed.

(** X13. After any sequence of events on the page as first rendered, the
    dialog is closed only with no person being edited and the form
    reset. *)
Theorem X13_closed_dialog_is_clean (es : list Event) (r : Remote) :
  closed_is_clean (after_all es (first_page r)).
Proof.
  apply after_all_closed_is_clean. unfold closed_is_clean. cbn. auto.
Qed.

(** X14. The requests an event sends to the store: [list] once on
    mounting and on a deletion; nothing on the buttons; on the form one
    [update] of the person being edited, or one [create] when nobody is,
    followed by [list] when the save went through.  Only the form sends
    a request that changes the store. *)
Theorem X14_requests_of_an_event (e : Event) (pg : Page Remote) :
  requests (world (after e pg))
  = requests (world pg)
    ++ match e with
       | Mounted | DeleteConfirmed _ => [ReqList]
       | AddPersonClicked | EditClicked _ | CancelClicked => []
       | FormFinished values =>
           save_request Remote values (world pg)
           :: (if saved values (world pg) then [ReqList] else [])
       end.
Proof. apply after_requests. Qed.

(** X15. When the save does not go through (the call throws, or the
    store answers without success), the dialog stays as it is: the list,
    the flags, the person being edited and the form are unchanged, and a
    thrown error is written to the console. *)
Theorem X15_failed_save_keeps_dialog (values : FormValues) (pg : Page Remote) :
  saved values (world pg) = false ->
  let pg' := after (FormFinished values) pg in
  people (world pg') = people (world pg)
  /\ loading (world pg') = loading (world pg)
  /\ modalVisible (world pg') = modalVisible (world pg)
  /\ editingPerson (world pg') = editingPerson (world pg)
  /\ formFields pg' = formFields pg
  /\ console (world pg')
     = console (world pg)
       ++ match fst (save_answer values (world pg)) with
          | Throw err => [Error "Failed to save person:" err]
          | Normal _ => []
          end.
Proof.
  unfold PageNotions.saved, Page.after. cbn [Page.handle].
  rewrite handleSubmit_run. cbv zeta.
  destruct (save_answer values (world pg)) as [[response | err] r]; fields.
  - intros ->. fields. rewrite app_nil_r. now conjuncts.
  - intros _. now conjuncts.
Qed.

(** X16. When the save goes through, the dialog is closed, nobody is
    being edited, the form is reset, and the list is loaded again: the
    page is what [loadPeople] leaves. *)
Theorem X16_save_closes_and_reloads (values : FormValues) (pg : Page Remote) :
  saved values (world pg) = true ->
  let pg' := after (FormFinished values) pg in
  modalVisible (world pg') = false
  /\ editingPerson (world pg') = None
  /\ formFields pg' = None
  /\ loading (world pg') = false
  /\ world pg'
     = snd (loadPeople Remote Person_list
              (mkWorld (people (world pg)) (loading (world pg)) false None
                 (console (world pg))
                 (requests (world pg) ++ [save_request Remote values (world pg)])
                 (snd (save_answer values (world pg))))).
Proof.
  unfold PageNotions.saved, Page.after. cbn [Page.handle].
  rewrite handleSubmit_run. cbv zeta.
  destruct (save_answer values (world pg)) as [[response | err] r]; fields;
    [| discriminate].
  intros ->. fields.
  destruct (loadPeople_frame Remote Person_list
              (mkWorld (people (world pg)) (loading (world pg)) false None
                 (console (world pg))
                 (requests (world pg) ++ [save_request Remote values (world pg)])
                 r)) as (H1 & H2 & _ & H4).
  now conjuncts.
Qed.

(** X17. With the dialog closed, on a page reached from the first one,
    pressing "Add Person" and finishing the form sends [create] with the
    values of the form, never [update]. *)
Theorem X17_add_then_finish_creates
    (es : list Event) (r : Remote) (values : FormValues) :
  let pg := after_all es (first_page r) in
  modalVisible (world pg) = false ->
  begins_with
    (requests (world (after_all [AddPersonClicked; FormFinished values] pg)))
    (requests (world pg) ++ [ReqCreate (personData_of values)]).
Proof.
  intros pg Hclosed.
  assert (Inv : closed_is_clean pg).
  { apply after_all_closed_is_clean. unfold closed_is_clean. cbn. auto. }
  destruct (Inv Hclosed) as [He _].
  cbn [Page.after_all fold_left].
  rewrite after_requests.
  assert (Ew : world (after AddPersonClicked pg)
               = mkWorld (people (world pg)) (loading (world pg)) true
                         (editingPerson (world pg)) (console (world pg))
                         (requests (world pg)) (remote (world pg)))
    by reflexivity.
  rewrite Ew. unfold save_request. fields. rewrite He.
  eexists. rewrite <- app_assoc. reflexivity.
Qed.

(** X18. Pressing "Edit" on a person and finishing the form with the
    values it was filled with sends [update] for that person's id, with
    the person's own fields when the birthday is well formed. *)
Theorem X18_edit_then_finish_updates (person : Person) (pg : Page Remote) :
  well_formed (birthday person) = true ->
  begins_with
    (requests (world (after_all [EditClicked person;
                                 FormFinished (fields_of person)] pg)))
    (requests (world pg)
     ++ [ReqUpdate (_id person)
           (mkPerson "" (name person) (birthday person)
                     (email person) (phone person) (notes person))])
  /\ formFields (after (EditClicked person) pg) = Some (fields_of person).
Proof.
  intros W. split; [| reflexivity].
  cbn [Page.after_all fold_left].
  rewrite after_requests.
  assert (Ew : world (after (EditClicked person) pg)
               = mkWorld (people (world pg)) (loading (world pg)) true
                         (Some person) (console (world pg))
                         (requests (world pg)) (remote (world pg)))
    by reflexivity.
  rewrite Ew. unfold save_request. fields.
  rewrite (personData_of_fields_of person W).
  eexists. rewrite <- app_assoc. reflexivity.
Qed.

(** X19. When the store answers [list] with success, [loadPeople] shows
    the people of the answer; in every case it ends with the loading
    flag off, after one [list] request, and leaves the dialog and the
    person being edited alone. *)
Theorem X19_loadPeople_shows_the_answer (w : World Remote) :
  let w' := snd (loadPeople Remote Person_list w) in
  (forall response,
     fst (Person_list (remote w)) = Normal response ->
     success response = true -> people w' = data response)
  /\ loading w' = false
  /\ requests w' = requests w ++ [ReqList]
  /\ modalVisible w' = modalVisible w
  /\ editingPerson w' = editingPerson w
  /\ fst (loadPeople Remote Person_list w) = Normal tt.
Proof.
  cbv zeta. rewrite loadPeople_run.
  destruct (Person_list (remote w)) as [[response | err] r]; fields; conjuncts;
    try reflexivity.
  - intros response' E Hs. injection E as <-. now rewrite Hs.
  - intros response' E. discriminate.
Qed.

End Handlers.

Lemma X15_witness :
  let pg := after (list Person) answering_store failing_create failing_update
              AddPersonClicked (first_page []) in
  let values := fields_of (person_born "" 1985 3 15) in
  let pg' := after (list Person) answering_store failing_create failing_update
               (FormFinished values) pg in
  modalVisible (world pg') = true /\ people (world pg') = []
  /\ console (world pg')
     = [Error "Failed to save person:" (StoreError "network")].
Proof.
  intros pg values pg'.
  destruct (X15_failed_save_keeps_dialog (list Person) answering_store
              failing_create failing_update values pg)
    as (H1 & _ & H3 & _ & _ & H6); [reflexivity |].
  fold pg' in H1, H3, H6. split; [now rewrite H3 |]. split; [now rewrite H1 |].
  rewrite H6. reflexivity.
Defined.

Lemma X16_witness :
  let pg := after (list Person) answering_store saving_create saving_update
              AddPersonClicked (first_page []) in
  let values := fields_of (person_born "" 1985 3 15) in
  let pg' := after (list Person) answering_store saving_create saving_update
               (FormFinished values) pg in
  modalVisible (world pg') = false
  /\ people (world pg') = [person_born "" 1985 3 15].
Proof.
  intros pg values pg'.
  destruct (X16_save_closes_and_reloads (list Person) answering_store
              saving_create saving_update values pg)
    as (H1 & _ & _ & _ & H5); [reflexivity |].
  fold pg' in H1, H5. split; [exact H1 |]. rewrite H5. by_eval.
Defined.

Lemma X17_witness :
  let john := person_born "7" 1985 3 15 in
  let pg := after_all (list Person) answering_store saving_create saving_update
              [Mounted; EditClicked john; CancelClicked] (first_page [john]) in
  let values := fields_of (person_born "" 1990 1 5) in
  modalVisible (world pg) = false
  /\ begins_with
       (requests (world (after_all (list Person) answering_store saving_create
                           saving_update
                           [AddPersonClicked; FormFinished values] pg)))
       (requests (world pg) ++ [ReqCreate (personData_of values)]).
Proof.
  intros john pg values.
  assert (Hclosed : modalVisible (world pg) = false) by by_eval.
  split; [exact Hclosed |].
  exact (X17_add_then_finish_creates (list Person) answering_store
           saving_create saving_update
           [Mounted; EditClicked john; CancelClicked] [john] values Hclosed).
Defined.

Lemma X18_witness :
  let john := person_born "7" 1985 3 15 in
  well_formed (birthday john) = true
  /\ begins_with
       (requests (world (after_all (list Person) answering_store saving_create
                           saving_update
                           [EditClicked john; FormFinished (fields_of john)]
                           (first_page [john]))))
       (requests (world (first_page [john]))
        ++ [ReqUpdate (_id john)
              (mkPerson "" (name john) (birthday john)
                        (email john) (phone john) (notes john))]).
Proof.
  intros john.
  assert (W : well_formed (birthday john) = true) by by_eval.
  split; [exact W |].
  exact (proj1 (X18_edit_then_finish_updates (list Person) answering_store
                  saving_create saving_update john (first_page [john]) W)).
Defined.

(** X20. In days of the calendar: a person is in the list of upcoming
    birthdays exactly when the date of the occurrence counted to is from
    1 to 30 days after the date of the call; 1 to 29 when the call is
    made at midnight sharp. *)
Theorem X20_upcoming_in_calendar_days
    (people : list Person) (p : Person) (today : Z) :
  In p (getUpcomingBirthdays people today)
  <-> In p people
      /\ 1 <= Day (nextOccurrence (birthday p) today) - Day today
           <= (if TimeWithinDay today =? 0 then 29 else 30).
Proof.
  rewrite upcoming_window, filter_In, andb_true_iff, Z.leb_le, Z.ltb_lt.
  rewrite getDaysUntilBirthday_days.
  destruct (nextOccurrence_view (birthday p) today)
    as (k & c & E & Hc & Hlt & _).
  rewrite E in *. rewrite Day_stamp by apply midnight_ok.
  unfold stamp in Hlt. set (D := FirstOfMonth k + c - 1) in *.
  assert (Hd : TimeWithinDay today = 0 -> Day today < D).
  { unfold MakeDate, Day, TimeWithinDay, msPerDay in *. zdiv. }
  destruct (Z.eqb_spec (TimeWithinDay today) 0) as [T0 | T0]; [specialize (Hd T0) |];
    split; intros [Hin H]; (split; [exact Hin | lia]).
Qed.

End Extras.
